(** * BabaSnooker: the snooker table of [src/SnookerGame.tsx]

    A shallow embedding of the physics-facing part of the component: the
    per-tick friction pass, the shot controller (pointer handlers), the pocket
    handler, the two resets and the global physics setter.

    JavaScript numbers are read as real numbers ([R]): [Math.sqrt] is [sqrt],
    [Math.max]/[Math.min] are [Rmax]/[Rmin], [<] and [>] are the boolean
    tests [Rltb]/[Rgtb].  Rounding of IEEE doubles is outside the model.

    Matter.js bodies are objects shared between the world's body array, the
    [cueBallRef] reference and the collision pairs.  The embedding keeps them
    in a store indexed by the body's [id]; the world is the ordered list of the
    ids it contains, and references are ids. *)

From Stdlib Require Import Reals Lra Lia ZArith String List DecimalString.
From stdpp Require Import gmap strings list fin_maps.
Import ListNotations.

Open Scope R_scope.

(** ** Vectors ([Matter.Vector]) *)

Record Vec : Type := mkVec { vx : R; vy : R }.

(** [Vector.sub(a, b)] *)
Definition vsub (a b : Vec) : Vec := mkVec (vx a - vx b) (vy a - vy b).

(** [Vector.magnitude(v)]: [Math.sqrt(v.x * v.x + v.y * v.y)] *)
Definition magnitude (v : Vec) : R := sqrt (vx v * vx v + vy v * vy v).

(** Boolean comparisons on numbers, for the [filter]/[every] callbacks. *)
Definition Rltb (x y : R) : bool := if Rlt_dec x y then true else false.
Definition Rgtb (x y : R) : bool := Rltb y x.

(** ** Table dimensions and physics defaults *)

Definition TABLE_WIDTH : R := 1200.
Definition TABLE_HEIGHT : R := 600.
Definition CUSHION : R := 40.
Definition BALL_R : R := 10.

Definition DEFAULTS_frictionAir : R := 0.018.
Definition DEFAULTS_friction : R := 0.05.
Definition DEFAULTS_rollingFriction : R := 0.0006.
Definition DEFAULTS_density : R := 0.005.
Definition DEFAULTS_restitution : R := 0.85.

(** ** Bodies ([Matter.Body])

    Only the fields the component reads or writes are kept.  A body's [id] is
    its key in the store, so it is not repeated in the record. *)

Record Body : Type := mkBody {
  label : string;
  isStatic : bool;
  isSensor : bool;
  position : Vec;
  velocity : Vec;
  angularVelocity : R;
  force : Vec;
  torque : R;
  frictionAir : R;
  density : R;
  area : R;
  mass : R;
  restitution : R;
  friction : R
}.

(** [Body.setPosition(b, p)] *)
Definition setPosition (b : Body) (p : Vec) : Body :=
  mkBody (label b) (isStatic b) (isSensor b) p (velocity b)
    (angularVelocity b) (force b) (torque b) (frictionAir b) (density b)
    (area b) (mass b) (restitution b) (friction b).

(** [Body.setVelocity(b, v)] *)
Definition setVelocity (b : Body) (v : Vec) : Body :=
  mkBody (label b) (isStatic b) (isSensor b) (position b) v
    (angularVelocity b) (force b) (torque b) (frictionAir b) (density b)
    (area b) (mass b) (restitution b) (friction b).

(** [Body.setAngularVelocity(b, w)] *)
Definition setAngularVelocity (b : Body) (w : R) : Body :=
  mkBody (label b) (isStatic b) (isSensor b) (position b) (velocity b)
    w (force b) (torque b) (frictionAir b) (density b)
    (area b) (mass b) (restitution b) (friction b).

(** [b.frictionAir = fAir] *)
Definition setFrictionAir (b : Body) (fAir : R) : Body :=
  mkBody (label b) (isStatic b) (isSensor b) (position b) (velocity b)
    (angularVelocity b) (force b) (torque b) fAir (density b)
    (area b) (mass b) (restitution b) (friction b).

(** [Body.setDensity(b, dn)]: Matter sets the mass to [dn * b.area] and
    records the density. *)
Definition setDensity (b : Body) (dn : R) : Body :=
  mkBody (label b) (isStatic b) (isSensor b) (position b) (velocity b)
    (angularVelocity b) (force b) (torque b) (frictionAir b) dn
    (area b) (dn * area b) (restitution b) (friction b).

(** [Body.applyForce(b, from, f)]: the force is accumulated, and the torque
    by the lever arm [from - b.position]. *)
Definition applyForce (b : Body) (from f : Vec) : Body :=
  let offset := vsub from (position b) in
  mkBody (label b) (isStatic b) (isSensor b) (position b) (velocity b)
    (angularVelocity b)
    (mkVec (vx (force b) + vx f) (vy (force b) + vy f))
    (torque b + (vx offset * vy f - vy offset * vx f))
    (frictionAir b) (density b)
    (area b) (mass b) (restitution b) (friction b).

(** The filter [b => !b.isStatic && !b.isSensor]. *)
Definition isDynamic (b : Body) : bool := negb (isStatic b) && negb (isSensor b).

(** ** The component's state

    [bodies] is the store of body objects, [world] the array
    [engine.world.bodies] as ids, [nextId] the counter from which Matter
    numbers new bodies.  The remaining fields are the component's refs and
    React state. *)

Record Session : Type := mkSession {
  bodies : gmap nat Body;
  nextId : nat;
  world : list nat;
  cueBallRef : option nat;
  allBallsRef : list nat;
  isDraggingRef : bool;
  dragStartRef : option Vec;
  cueLineRef : option (Vec * Vec);
  lastForceRef : option Vec;
  rollingFrictionRef : R;
  pottedBalls : list string;
  shotPower : Z;
  isAiming : bool;
  isCueBallPotted : bool
}.

Definition withBodies (s : Session) (m : gmap nat Body) : Session :=
  mkSession m (nextId s) (world s) (cueBallRef s) (allBallsRef s)
    (isDraggingRef s) (dragStartRef s) (cueLineRef s) (lastForceRef s)
    (rollingFrictionRef s) (pottedBalls s) (shotPower s) (isAiming s)
    (isCueBallPotted s).

Definition withWorld (s : Session) (w : list nat) : Session :=
  mkSession (bodies s) (nextId s) w (cueBallRef s) (allBallsRef s)
    (isDraggingRef s) (dragStartRef s) (cueLineRef s) (lastForceRef s)
    (rollingFrictionRef s) (pottedBalls s) (shotPower s) (isAiming s)
    (isCueBallPotted s).

Definition withRollingFriction (s : Session) (rf : R) : Session :=
  mkSession (bodies s) (nextId s) (world s) (cueBallRef s) (allBallsRef s)
    (isDraggingRef s) (dragStartRef s) (cueLineRef s) (lastForceRef s)
    rf (pottedBalls s) (shotPower s) (isAiming s)
    (isCueBallPotted s).

Definition withPottedBalls (s : Session) (p : list string) : Session :=
  mkSession (bodies s) (nextId s) (world s) (cueBallRef s) (allBallsRef s)
    (isDraggingRef s) (dragStartRef s) (cueLineRef s) (lastForceRef s)
    (rollingFrictionRef s) p (shotPower s) (isAiming s)
    (isCueBallPotted s).

Definition withCueBallPotted (s : Session) (f : bool) : Session :=
  mkSession (bodies s) (nextId s) (world s) (cueBallRef s) (allBallsRef s)
    (isDraggingRef s) (dragStartRef s) (cueLineRef s) (lastForceRef s)
    (rollingFrictionRef s) (pottedBalls s) (shotPower s) (isAiming s) f.

Definition withShotPower (s : Session) (p : Z) : Session :=
  mkSession (bodies s) (nextId s) (world s) (cueBallRef s) (allBallsRef s)
    (isDraggingRef s) (dragStartRef s) (cueLineRef s) (lastForceRef s)
    (rollingFrictionRef s) (pottedBalls s) p (isAiming s)
    (isCueBallPotted s).

Definition withCueLine (s : Session) (l : option (Vec * Vec)) : Session :=
  mkSession (bodies s) (nextId s) (world s) (cueBallRef s) (allBallsRef s)
    (isDraggingRef s) (dragStartRef s) l (lastForceRef s)
    (rollingFrictionRef s) (pottedBalls s) (shotPower s) (isAiming s)
    (isCueBallPotted s).

Definition withLastForce (s : Session) (f : option Vec) : Session :=
  mkSession (bodies s) (nextId s) (world s) (cueBallRef s) (allBallsRef s)
    (isDraggingRef s) (dragStartRef s) (cueLineRef s) f
    (rollingFrictionRef s) (pottedBalls s) (shotPower s) (isAiming s)
    (isCueBallPotted s).

(** The three writes that open or close a gesture: [isDraggingRef],
    [dragStartRef] and [setIsAiming]. *)
Definition withGesture (s : Session) (dragging : bool) (start : option Vec)
    (aiming : bool) : Session :=
  mkSession (bodies s) (nextId s) (world s) (cueBallRef s) (allBallsRef s)
    dragging start (cueLineRef s) (lastForceRef s)
    (rollingFrictionRef s) (pottedBalls s) (shotPower s) aiming
    (isCueBallPotted s).

(** ** The world ([Matter.Composite]) *)

(** [Composite.allBodies(world).filter(b => !b.isStatic && !b.isSensor)] *)
Definition dynamicBodies (m : gmap nat Body) (w : list nat) : list nat :=
  List.filter (fun i => match m !! i with
                        | Some b => isDynamic b
                        | None => false
                        end) w.

(** [ids.forEach(b => ...)] for a callback that mutates the body it gets. *)
Definition forEachBody (f : Body -> Body) (ids : list nat)
    (m : gmap nat Body) : gmap nat Body :=
  fold_left (fun m i => alter f i m) ids m.

(** [Composite.remove(world, body)]: the body is looked up with [indexOf] and
    that one entry is spliced out. *)
Fixpoint removeBody (i : nat) (w : list nat) : list nat :=
  match w with
  | [] => []
  | x :: t => if Nat.eqb x i then t else x :: removeBody i t
  end.

(** [Composite.remove(world, bodies)] with an array. *)
Definition removeBodies (ids : list nat) (w : list nat) : list nat :=
  fold_left (fun w i => removeBody i w) ids w.

(** [Composite.get(world, id, "body")] as a truth value. *)
Definition inWorld (i : nat) (w : list nat) : bool := existsb (Nat.eqb i) w.

(** [Composite.add(world, bodies)]: pushed at the end, in order. *)
Definition addBodies (ids : list nat) (w : list nat) : list nat := w ++ ids.

(** ** JavaScript [Math] functions on real numbers *)

(** [Math.atan2(y, x)] *)
Definition atan2 (y x : R) : R :=
  if Rlt_dec 0 x then atan (y / x)
  else if Rlt_dec x 0 then
    (if Rle_dec 0 y then atan (y / x) + PI else atan (y / x) - PI)
  else if Rlt_dec 0 y then PI / 2
  else if Rlt_dec y 0 then - (PI / 2)
  else 0.

(** [Math.round(x)]: the nearest integer, halves going up. *)
Definition round (x : R) : Z := Int_part (x + / 2).

(** ** Friction pass (the [beforeUpdate] handler) *)

(** The callback of the [forEach], for one body; [rf] is
    [rollingFrictionRef.current]. *)
Definition frictionBody (rf : R) (b : Body) : Body :=
  let speed := magnitude (velocity b) in
  if Rgtb speed 0 && Rltb speed 0.15 then
    setAngularVelocity (setVelocity b (mkVec 0 0)) 0
  else if Rgtb rf 0 && Rgtb speed 0.15 then
    let newSpeed := Rmax 0 (speed - rf) in
    let scale := newSpeed / speed in
    setVelocity b (mkVec (vx (velocity b) * scale) (vy (velocity b) * scale))
  else b.

Definition frictionPass (s : Session) : Session :=
  withBodies s
    (forEachBody (frictionBody (rollingFrictionRef s))
       (dynamicBodies (bodies s) (world s)) (bodies s)).

(** ** Global physics setter *)

Definition applyPhysicsSettings (fAir rf dn : R) (s : Session) : Session :=
  let s1 := withRollingFriction s rf in
  withBodies s1
    (forEachBody (fun b => setDensity (setFrictionAir b fAir) dn)
       (dynamicBodies (bodies s1) (world s1)) (bodies s1)).

(** ** Session queries and resets *)

(** The cue ball's starting spot, as [resetCueBall] and [createBalls] write
    it. *)
Definition cueSpot : Vec :=
  mkVec (CUSHION + TABLE_WIDTH * 0.25) (CUSHION + TABLE_HEIGHT / 2).

Definition resetCueBall (s : Session) : Session :=
  match cueBallRef s with
  | None => s
  | Some c =>
      let place b :=
        setAngularVelocity (setVelocity (setPosition b cueSpot) (mkVec 0 0)) 0 in
      let s1 := withBodies s (alter place c (bodies s)) in
      let s2 := if inWorld c (world s1) then s1
                else withWorld s1 (addBodies [c] (world s1)) in
      withCueBallPotted s2 false
  end.

Definition allBallsStopped (s : Session) : bool :=
  forallb (fun i => match bodies s !! i with
                    | Some b => Rltb (magnitude (velocity b)) 0.1
                    | None => true
                    end)
    (dynamicBodies (bodies s) (world s)).

(** ** Pocket detection (the [collisionStart] handler) *)

(** [label.startsWith("pocket-")] *)
Definition isPocketLabel (l : string) : bool := String.prefix "pocket-" l.

(** The callback of [event.pairs.forEach], for one pair of bodies. *)
Definition pocketPair (s : Session) (pair : nat * nat) : Session :=
  match bodies s !! pair.1, bodies s !! pair.2 with
  | Some bodyA, Some bodyB =>
      let found :=
        if isPocketLabel (label bodyA) then Some (pair.2, bodyB)
        else if isPocketLabel (label bodyB) then Some (pair.1, bodyA)
        else None in
      match found with
      | Some (i, ball) =>
          if isStatic ball then s
          else if String.eqb (label ball) "cue" then
            withCueBallPotted (withWorld s (removeBody i (world s))) true
          else
            withPottedBalls (withWorld s (removeBody i (world s)))
              (pottedBalls s ++ [label ball])
      | None => s
      end
  | _, _ => s
  end.

Definition onCollisionStart (pairs : list (nat * nat)) (s : Session) : Session :=
  fold_left pocketPair pairs s.

(** ** Shot controller (the pointer handlers)

    The argument [pos] is the result of [getCanvasPos(e)]. *)

Definition onMouseDown (pos : Vec) (s : Session) : Session :=
  if negb (allBallsStopped s) then s
  else
    match cueBallRef s with
    | None => s
    | Some c =>
        match bodies s !! c with
        | None => s
        | Some cue =>
            let dist := magnitude (vsub pos (position cue)) in
            if Rltb dist (BALL_R * 4) then
              withGesture s true
                (Some (mkVec (vx (position cue)) (vy (position cue)))) true
            else s
        end
    end.

(** [power]: the pull distance from the cue ball at [from] to the pointer at
    [pos], clamped to 300. *)
Definition pullPower (from pos : Vec) : R :=
  let dx := vx from - vx pos in
  let dy := vy from - vy pos in
  Rmin (sqrt (dx * dx + dy * dy)) 300.

Definition onMouseMove (pos : Vec) (s : Session) : Session :=
  if negb (isDraggingRef s) then s
  else
    match dragStartRef s, cueBallRef s with
    | Some _, Some c =>
        match bodies s !! c with
        | None => s
        | Some cue =>
            let from := position cue in
            let power := pullPower from pos in
            withCueLine (withShotPower s (round (power / 300 * 100)))
              (Some (mkVec (vx from) (vy from), mkVec (vx pos) (vy pos)))
        end
    | _, _ => s
    end.

(** [{ x: fx, y: fy }]: the force of a release at [pos]. *)
Definition shotForce (from pos : Vec) : Vec :=
  let dx := vx from - vx pos in
  let dy := vy from - vy pos in
  let power := pullPower from pos in
  let maxForce := 0.08 in
  let force := power / 300 * maxForce in
  let angle := atan2 dy dx in
  mkVec (cos angle * force) (sin angle * force).

Definition onMouseUp (pos : Vec) (s : Session) : Session :=
  if negb (isDraggingRef s) then s
  else
    match dragStartRef s, cueBallRef s with
    | Some _, Some c =>
        match bodies s !! c with
        | None => s
        | Some cue =>
            let s1 :=
              if Rgtb (pullPower (position cue) pos) 5 then
                let f := shotForce (position cue) pos in
                withLastForce
                  (withBodies s
                     (<[c := applyForce cue (position cue) f]> (bodies s)))
                  (Some f)
              else s in
            withShotPower
              (withCueLine (withGesture s1 false None false) None) 0
        end
    | _, _ => s
    end.

(** ** The rack ([createBall], [createBalls]) and [resetGame]

    [Bodies.circle] derives a body's area from the polygon Matter draws for a
    circle of radius [BALL_R]; that number is taken as [ballArea].  The
    [render] options are not modelled. *)

Section Matter.

Variable ballArea : R.

Definition createBall (x y : R) (lbl : string) : Body :=
  mkBody lbl false false (mkVec x y) (mkVec 0 0) 0 (mkVec 0 0) 0
    DEFAULTS_frictionAir DEFAULTS_density ballArea
    (DEFAULTS_density * ballArea) DEFAULTS_restitution DEFAULTS_friction.

(** Template literal [`red-${n}`]. *)
Definition redLabel (n : nat) : string :=
  String.append "red-" (NilZero.string_of_uint (Nat.to_uint n)).

(** The [(row, col)] pairs the two nested [for] loops go through. *)
Definition rackCells : list (nat * nat) :=
  flat_map (fun row => List.map (fun col => (row, col)) (seq 0 (S row)))
    (seq 0 5).

Definition rackStartX : R := CUSHION + TABLE_WIDTH * 0.68.
Definition rackCy : R := CUSHION + TABLE_HEIGHT / 2.
Definition rackSpacing : R := BALL_R * 2.15.

(** The red pushed at loop position [(row, col)] when [ballIndex] is
    [ballIndex]. *)
Definition redBall (ballIndex : nat) (cell : nat * nat) : Body :=
  let row := INR cell.1 in
  let col := INR cell.2 in
  createBall (rackStartX + row * rackSpacing * cos (PI / 6))
    (rackCy + (col - row / 2) * rackSpacing)
    (redLabel ballIndex).

(** The [spots] table, without the colour column. *)
Definition spots : list (R * R * string) :=
  [ (CUSHION + TABLE_WIDTH * 0.2, rackCy - TABLE_HEIGHT * 0.22, "yellow"%string);
    (CUSHION + TABLE_WIDTH * 0.2, rackCy + TABLE_HEIGHT * 0.22, "green"%string);
    (CUSHION + TABLE_WIDTH * 0.2, rackCy, "brown"%string);
    (CUSHION + TABLE_WIDTH * 0.5, rackCy, "blue"%string);
    (rackStartX - rackSpacing * 1.5, rackCy, "pink"%string);
    (CUSHION + TABLE_WIDTH * 0.89, rackCy, "black"%string) ].

(** [createBalls()]: the cue ball and the object balls, in creation order. *)
Definition createBalls : Body * list Body :=
  let cueBall := createBall (CUSHION + TABLE_WIDTH * 0.25) rackCy "cue" in
  let reds := imap redBall rackCells in
  let colours := List.map (fun sp => createBall sp.1.1 sp.1.2 sp.2) spots in
  (cueBall, reds ++ colours).

(** Bodies get consecutive ids as they are created; [allocBodies bs n m]
    stores [bs] under [n], [n + 1], ... *)
Fixpoint allocBodies (bs : list Body) (n : nat) (m : gmap nat Body)
    : gmap nat Body :=
  match bs with
  | [] => m
  | b :: t => allocBodies t (S n) (<[n := b]> m)
  end.

Definition resetGame (s : Session) : Session :=
  let removed := dynamicBodies (bodies s) (world s) in
  let world1 := removeBodies removed (world s) in
  let '(cueBall, objectBalls) := createBalls in
  let created := cueBall :: objectBalls in
  let ids := seq (nextId s) (length created) in
  mkSession (allocBodies created (nextId s) (bodies s))
    (nextId s + length created)
    (addBodies ids world1)
    (Some (nextId s))
    ids
    (isDraggingRef s) (dragStartRef s) (cueLineRef s) (lastForceRef s)
    (rollingFrictionRef s)
    []
    (shotPower s) (isAiming s)
    false.

(** ** The engine's tick ([Engine.update], driven by the runner)

    Matter's three phases are parameters: [integrate] (motion of the bodies),
    [detect] (the pairs that started to collide, given to [collisionStart])
    and [resolve] (collision response).  The engine raises [beforeUpdate]
    before it integrates and [collisionStart] once the pairs are known, and it
    neither adds nor removes bodies itself. *)

Variable integrate : gmap nat Body -> list nat -> gmap nat Body.
Variable detect : gmap nat Body -> list nat -> list (nat * nat).
Variable resolve : gmap nat Body -> list nat -> list (nat * nat) -> gmap nat Body.

Inductive EventName : Type := beforeUpdate | collisionStart.

Definition EventName_eqb (a b : EventName) : bool :=
  match a, b with
  | beforeUpdate, beforeUpdate => true
  | collisionStart, collisionStart => true
  | _, _ => false
  end.

(** The callbacks registered with [Events.on(engine, name, callback)], in the
    order of registration. *)
Definition engineEvents : list (EventName * (list (nat * nat) -> Session -> Session)) :=
  [ (collisionStart, onCollisionStart);
    (beforeUpdate, fun _ => frictionPass) ].

(** [Events.trigger(engine, name, event)] *)
Definition trigger (name : EventName) (pairs : list (nat * nat)) (s : Session)
    : Session :=
  fold_left (fun s h => if EventName_eqb h.1 name then h.2 pairs s else s)
    engineEvents s.

Definition tick (s : Session) : Session :=
  let s1 := trigger beforeUpdate [] s in
  let allBodies := world s1 in
  let s2 := withBodies s1 (integrate (bodies s1) allBodies) in
  let pairs := detect (bodies s2) allBodies in
  let s3 := trigger collisionStart pairs s2 in
  withBodies s3 (resolve (bodies s3) allBodies pairs).

(** The order of a tick as the specification words it: integrate, resolve
    collisions, notify sensor contacts, apply the friction pass. *)
Definition tick_spec_order (s : Session) : Session :=
  let allBodies := world s in
  let s1 := withBodies s (integrate (bodies s) allBodies) in
  let pairs := detect (bodies s1) allBodies in
  let s2 := withBodies s1 (resolve (bodies s1) allBodies pairs) in
  let s3 := onCollisionStart pairs s2 in
  frictionPass s3.

(** ** Everything that can happen to a session *)

Inductive Event : Type :=
  | Tick
  | CollisionStart (pairs : list (nat * nat))
  | MouseDown (pos : Vec)
  | MouseMove (pos : Vec)
  | MouseUp (pos : Vec)
  | SetPhysics (fAir rf dn : R)
  | ResetCueBall
  | ResetGame.

Definition step (s : Session) (e : Event) : Session :=
  match e with
  | Tick => tick s
  | CollisionStart pairs => onCollisionStart pairs s
  | MouseDown pos => onMouseDown pos s
  | MouseMove pos => onMouseMove pos s
  | MouseUp pos => onMouseUp pos s
  | SetPhysics fAir rf dn => applyPhysicsSettings fAir rf dn s
  | ResetCueBall => resetCueBall s
  | ResetGame => resetGame s
  end.

Definition run (s : Session) (es : list Event) : Session := fold_left step es s.

Definition isReset (e : Event) : bool :=
  match e with
  | ResetCueBall | ResetGame => true
  | _ => false
  end.

End Matter.

(** ** A tick with an arbitrary engine

    What the source fixes about a tick is where its two callbacks hang: the
    friction pass on [beforeUpdate], the pocket handler on [collisionStart].
    [update] stands for all that [Engine.update] does after it has raised
    [beforeUpdate]; it gets the dispatcher of [collisionStart] and may call it
    whenever, and as often as, the library does. *)
Definition engineTick
    (update : (list (nat * nat) -> Session -> Session) -> Session -> Session)
    (s : Session) : Session :=
  update (trigger collisionStart) (trigger beforeUpdate [] s).

(** Two such engines, made of the same three phases: one notifies the
    contacts before it resolves the collisions, the other after. *)
Definition notifyThenResolve
    (integrate : gmap nat Body -> list nat -> gmap nat Body)
    (detect : gmap nat Body -> list nat -> list (nat * nat))
    (resolve : gmap nat Body -> list nat -> list (nat * nat) -> gmap nat Body)
    (notify : list (nat * nat) -> Session -> Session) (s1 : Session)
    : Session :=
  let allBodies := world s1 in
  let s2 := withBodies s1 (integrate (bodies s1) allBodies) in
  let pairs := detect (bodies s2) allBodies in
  let s3 := notify pairs s2 in
  withBodies s3 (resolve (bodies s3) allBodies pairs).

Definition resolveThenNotify
    (integrate : gmap nat Body -> list nat -> gmap nat Body)
    (detect : gmap nat Body -> list nat -> list (nat * nat))
    (resolve : gmap nat Body -> list nat -> list (nat * nat) -> gmap nat Body)
    (notify : list (nat * nat) -> Session -> Session) (s1 : Session)
    : Session :=
  let allBodies := world s1 in
  let s2 := withBodies s1 (integrate (bodies s1) allBodies) in
  let pairs := detect (bodies s2) allBodies in
  let s3 := withBodies s2 (resolve (bodies s2) allBodies pairs) in
  notify pairs s3.

(** ** Notions used in the statements *)

(** "Every non-static, non-sensor body of the world is slower than the rest
    threshold 0.1". *)
Definition allAtRest (s : Session) : Prop :=
  forall i b, i ∈ world s -> bodies s !! i = Some b -> isDynamic b = true ->
    magnitude (velocity b) < 0.1.

(** The rack in creation order: the cue ball, then the object balls. *)
Definition rack (ballArea : R) : list Body :=
  (createBalls ballArea).1 :: (createBalls ballArea).2.

(** Where the red of row [row], column [col] of the triangle lies. *)
Definition redSpot (row col : nat) : Vec :=
  mkVec (856 + INR row * 21.5 * cos (PI / 6))
        (340 + (INR col - INR row / 2) * 21.5).

(** The static bodies and sensors that [resetGame] leaves in the world. *)
Definition survivors (s : Session) : list nat :=
  List.filter (fun i => negb match bodies s !! i with
                             | Some b => isDynamic b
                             | None => false
                             end) (world s).

(** The bookkeeping every reachable state satisfies: no body is in the world
    twice, and the world and [cueBallRef] hold only ids already handed out. *)
Definition wellFormed (s : Session) : Prop :=
  NoDup (world s) /\
  (forall i, i ∈ world s -> (i < nextId s)%nat) /\
  (forall c, cueBallRef s = Some c -> (c < nextId s)%nat).

(** ** Example data

    A small table: one pocket sensor, the cue ball at (300, 300) and the red
    ball "red-7", with chosen velocities.  A static body's mass and density
    are infinite in Matter and are never read by the component; the example
    pocket carries 0 there. *)

Definition exampleArea : R := 300.

Definition examplePocket : Body :=
  mkBody "pocket-0" true true (mkVec 38 38) (mkVec 0 0) 0 (mkVec 0 0) 0
    0.01 0 (PI * (22 * 22)) 0 0 0.1.

Definition exampleBall (lbl : string) (pos vel : Vec) : Body :=
  setVelocity (createBall exampleArea (vx pos) (vy pos) lbl) vel.

Definition exampleSession (cueVel redVel : Vec) : Session :=
  mkSession
    (<[0%nat := examplePocket]>
       (<[1%nat := exampleBall "cue" (mkVec 300 300) cueVel]>
          (<[2%nat := exampleBall "red-7" (mkVec 600 300) redVel]> ∅)))
    3 [0%nat; 1%nat; 2%nat] (Some 1%nat) [1%nat; 2%nat]
    false None None None DEFAULTS_rollingFriction [] 0%Z false false.

(** The same table with a cue ball that moves and spins. *)
Definition exampleSpinning : Session :=
  withBodies (exampleSession (mkVec 1 0) (mkVec 0 0))
    (<[1%nat := setAngularVelocity
                  (exampleBall "cue" (mkVec 300 300) (mkVec 1 0)) 2]>
       (bodies (exampleSession (mkVec 1 0) (mkVec 0 0)))).

(** The same table while the player is aiming. *)
Definition exampleAiming : Session :=
  withGesture (exampleSession (mkVec 0 0) (mkVec 0 0)) true
    (Some (mkVec 300 300)) true.

(** A toy engine: every body of the world moves by its velocity, nothing
    collides. *)
Definition eulerIntegrate (m : gmap nat Body) (w : list nat) : gmap nat Body :=
  forEachBody
    (fun b => setPosition b (mkVec (vx (position b) + vx (velocity b))
                                   (vy (position b) + vy (velocity b))))
    w m.

Definition noPairs (m : gmap nat Body) (w : list nat) : list (nat * nat) := [].

Definition noResolve (m : gmap nat Body) (w : list nat)
    (pairs : list (nat * nat)) : gmap nat Body := m.

(** ** Pointer coordinates ([getCanvasPos])

    [rect] is the result of [canvas.getBoundingClientRect()], [clientX] and
    [clientY] are the coordinates of the mouse event. *)

Definition CANVAS_W : R := TABLE_WIDTH + CUSHION * 2.
Definition CANVAS_H : R := TABLE_HEIGHT + CUSHION * 2.

Record Rect : Type := mkRect {
  rectLeft : R;
  rectTop : R;
  rectWidth : R;
  rectHeight : R
}.

Definition getCanvasPos (rect : Rect) (clientX clientY : R) : Vec :=
  let scaleX := CANVAS_W / rectWidth rect in
  let scaleY := CANVAS_H / rectHeight rect in
  mkVec ((clientX - rectLeft rect) * scaleX) ((clientY - rectTop rect) * scaleY).

(** ** Arrows on the canvas ([drawArrow] and the vector overlay)

    The calls made on the 2D context are collected in order. *)

Inductive CanvasOp : Type :=
  | ctxSave
  | ctxRestore
  | ctxGlobalAlpha (alpha : R)
  | ctxBeginPath
  | ctxMoveTo (x y : R)
  | ctxLineTo (x y : R)
  | ctxClosePath
  | ctxStrokeStyle (color : string)
  | ctxFillStyle (color : string)
  | ctxLineWidth (w : R)
  | ctxLineCap (cap : string)
  | ctxFont (font : string)
  | ctxStroke
  | ctxFill
  | ctxFillText (text : string) (x y : R).

Definition drawArrow (fromX fromY toX toY : R) (color : string)
    (lineWidth alpha : R) : list CanvasOp :=
  let dx := toX - fromX in
  let dy := toY - fromY in
  let len := sqrt (dx * dx + dy * dy) in
  if Rltb len 2 then []
  else
    let headLen := Rmin 8 (len * 0.35) in
    let angle := atan2 dy dx in
    [ ctxSave; ctxGlobalAlpha alpha;
      ctxBeginPath; ctxMoveTo fromX fromY; ctxLineTo toX toY;
      ctxStrokeStyle color; ctxLineWidth lineWidth; ctxLineCap "round";
      ctxStroke;
      ctxBeginPath; ctxMoveTo toX toY;
      ctxLineTo (toX - headLen * cos (angle - PI / 6))
                (toY - headLen * sin (angle - PI / 6));
      ctxLineTo (toX - headLen * cos (angle + PI / 6))
                (toY - headLen * sin (angle + PI / 6));
      ctxClosePath; ctxFillStyle color; ctxFill;
      ctxRestore ].

Definition VEC_SCALE_VELOCITY : R := 18.
Definition VEC_SCALE_FRICTION : R := 800.
Definition MIN_SPEED_FOR_VECTORS : R := 0.2.
Definition VECTOR_COLORS_velocity : string := "#00e5ff".
Definition VECTOR_COLORS_friction : string := "#ff9100".

(** The callback of [movingBalls.forEach] in the vector overlay, for one
    ball. *)
Definition vectorOverlay (b : Body) : list CanvasOp :=
  let speed := magnitude (velocity b) in
  if Rltb speed MIN_SPEED_FOR_VECTORS then []
  else
    let px := vx (position b) in
    let py := vy (position b) in
    let avx := vx (velocity b) * VEC_SCALE_VELOCITY in
    let avy := vy (velocity b) * VEC_SCALE_VELOCITY in
    let ffx := - vx (velocity b) * frictionAir b * mass b * VEC_SCALE_FRICTION in
    let ffy := - vy (velocity b) * frictionAir b * mass b * VEC_SCALE_FRICTION in
    drawArrow px py (px + avx) (py + avy) VECTOR_COLORS_velocity 2.5 0.9
    ++ [ ctxSave; ctxFont "bold 10px monospace";
         ctxFillStyle VECTOR_COLORS_velocity; ctxGlobalAlpha 0.85;
         ctxFillText "v" (px + avx + 4) (py + avy - 4); ctxRestore ]
    ++ drawArrow px py (px + ffx) (py + ffy) VECTOR_COLORS_friction 2 0.8
    ++ [ ctxSave; ctxFont "bold 10px monospace";
         ctxFillStyle VECTOR_COLORS_friction; ctxGlobalAlpha 0.8;
         ctxFillText "f" (px + ffx + 4) (py + ffy - 4); ctxRestore ].

(** How many times an operation occurs in a list of canvas calls. *)
Definition isSave (op : CanvasOp) : bool :=
  match op with ctxSave => true | _ => false end.

Definition isRestore (op : CanvasOp) : bool :=
  match op with ctxRestore => true | _ => false end.

(** ** Notions used in the further properties *)

(** [b'] is [b] slowed down: same position, label, flags, mass and pending
    force, and a velocity that is the old one scaled by a factor in [0, 1]. *)
Definition slowedFrom (b b' : Body) : Prop :=
  (exists k, 0 <= k <= 1 /\
     velocity b' = mkVec (vx (velocity b) * k) (vy (velocity b) * k)) /\
  position b' = position b /\ label b' = label b /\
  isStatic b' = isStatic b /\ isSensor b' = isSensor b /\
  mass b' = mass b /\ force b' = force b.

(** No gesture is in progress and nothing is displayed. *)
Definition idle (s : Session) : Prop :=
  isDraggingRef s = false /\ dragStartRef s = None /\ cueLineRef s = None /\
  isAiming s = false /\ shotPower s = 0%Z.

Definition isPointerEvent (e : Event) : bool :=
  match e with
  | MouseDown _ | MouseMove _ | MouseUp _ => true
  | _ => false
  end.

Definition isResetGame (e : Event) : bool :=
  match e with
  | ResetGame => true
  | _ => false
  end.

(** * Properties *)

(** ** Numbers and vectors *)

Lemma Rltb_true (x y : R) : Rltb x y = true <-> x < y.
Proof. unfold Rltb. destruct (Rlt_dec x y); split; intros; try done. Qed.

Lemma Rltb_false (x y : R) : Rltb x y = false <-> y <= x.
Proof.
  unfold Rltb. destruct (Rlt_dec x y); split; intros; try done; lra.
Qed.

Lemma Rgtb_true (x y : R) : Rgtb x y = true <-> x > y.
Proof. unfold Rgtb. rewrite Rltb_true. lra. Qed.

Lemma Rgtb_false (x y : R) : Rgtb x y = false <-> x <= y.
Proof. unfold Rgtb. rewrite Rltb_false. lra. Qed.

Lemma sum_squares_nonneg (x y : R) : 0 <= x * x + y * y.
Proof. nra. Qed.

Lemma magnitude_nonneg (v : Vec) : 0 <= magnitude v.
Proof. apply sqrt_pos. Qed.

Lemma magnitude_zero_iff (v : Vec) : magnitude v = 0 <-> v = mkVec 0 0.
Proof.
  destruct v as [x y]. unfold magnitude. simpl. split.
  - intros H. apply sqrt_eq_0 in H; [| apply sum_squares_nonneg].
    assert (x = 0) by nra. assert (y = 0) by nra. by subst.
  - intros [= -> ->]. replace (0 * 0 + 0 * 0) with 0 by lra. apply sqrt_0.
Qed.

Lemma magnitude_axis (a : R) : 0 <= a -> magnitude (mkVec a 0) = a.
Proof.
  intros Ha. unfold magnitude. simpl.
  replace (a * a + 0 * 0) with (a * a) by lra. by apply sqrt_square.
Qed.

Lemma magnitude_scaled (v : Vec) (k : R) :
  0 <= k -> magnitude (mkVec (vx v * k) (vy v * k)) = magnitude v * k.
Proof.
  intros Hk. destruct v as [x y]. unfold magnitude. simpl.
  replace (x * k * (x * k) + y * k * (y * k)) with ((x * x + y * y) * (k * k))
    by lra.
  rewrite sqrt_mult; [| apply sum_squares_nonneg | nra].
  by rewrite (sqrt_square k Hk).
Qed.

(** ** The friction callback on one body *)

Lemma frictionBody_slow (rf : R) (b : Body) :
  0 < magnitude (velocity b) < 0.15 ->
  frictionBody rf b = setAngularVelocity (setVelocity b (mkVec 0 0)) 0.
Proof.
  intros [H0 H1]. unfold frictionBody.
  assert (Rgtb (magnitude (velocity b)) 0 = true) as -> by (apply Rgtb_true; lra).
  assert (Rltb (magnitude (velocity b)) 0.15 = true) as -> by by apply Rltb_true.
  done.
Qed.

Lemma frictionBody_roll (rf : R) (b : Body) :
  rf > 0 -> magnitude (velocity b) > 0.15 ->
  frictionBody rf b =
    setVelocity b
      (mkVec (vx (velocity b) * (Rmax 0 (magnitude (velocity b) - rf)
                                   / magnitude (velocity b)))
             (vy (velocity b) * (Rmax 0 (magnitude (velocity b) - rf)
                                   / magnitude (velocity b)))).
Proof.
  intros Hrf Hs. unfold frictionBody.
  assert (Rltb (magnitude (velocity b)) 0.15 = false) as ->
    by (apply Rltb_false; lra).
  assert (Rgtb rf 0 = true) as -> by by apply Rgtb_true.
  assert (Rgtb (magnitude (velocity b)) 0.15 = true) as -> by by apply Rgtb_true.
  by rewrite andb_false_r.
Qed.

Lemma frictionBody_rest (rf : R) (b : Body) :
  ~ 0 < magnitude (velocity b) < 0.15 ->
  ~ (rf > 0 /\ magnitude (velocity b) > 0.15) ->
  frictionBody rf b = b.
Proof.
  intros H1 H2. unfold frictionBody.
  destruct (Rgtb (magnitude (velocity b)) 0 && Rltb (magnitude (velocity b)) 0.15)
    eqn:E1.
  { apply andb_true_iff in E1 as [Ha Hb].
    apply Rgtb_true in Ha. apply Rltb_true in Hb. lra. }
  destruct (Rgtb rf 0 && Rgtb (magnitude (velocity b)) 0.15) eqn:E2; [| done].
  apply andb_true_iff in E2 as [Ha Hb].
  apply Rgtb_true in Ha. apply Rgtb_true in Hb. tauto.
Qed.

(** ** Walking over the bodies of the world *)

Lemma forEachBody_lookup_notin (f : Body -> Body) (ids : list nat)
    (m : gmap nat Body) (i : nat) :
  i ∉ ids -> forEachBody f ids m !! i = m !! i.
Proof.
  unfold forEachBody. revert m.
  induction ids as [| x ids IH]; intros m Hi; [done |].
  apply not_elem_of_cons in Hi as [Hne Hi]. simpl.
  rewrite IH; [| done]. by rewrite lookup_alter_ne.
Qed.

Lemma forEachBody_lookup_in (f : Body -> Body) (ids : list nat)
    (m : gmap nat Body) (i : nat) :
  NoDup ids -> i ∈ ids -> forEachBody f ids m !! i = f <$> m !! i.
Proof.
  unfold forEachBody. revert m.
  induction ids as [| x ids IH]; intros m Hnd Hi.
  { by apply elem_of_nil in Hi. }
  apply NoDup_cons in Hnd as [Hx Hnd]. simpl.
  apply elem_of_cons in Hi as [-> | Hi].
  - pose proof (forEachBody_lookup_notin f ids (alter f x m) x Hx) as Hn.
    unfold forEachBody in Hn. rewrite Hn. apply lookup_alter_eq.
  - rewrite IH; [| done | done].
    rewrite lookup_alter_ne; [done |]. intros ->. contradiction.
Qed.

Lemma dynamicBodies_elem (m : gmap nat Body) (w : list nat) (i : nat) :
  i ∈ dynamicBodies m w <->
  i ∈ w /\ exists b, m !! i = Some b /\ isDynamic b = true.
Proof.
  unfold dynamicBodies. rewrite !list_elem_of_In, filter_In.
  split.
  - intros [Hi Hd]. split; [done |].
    destruct (m !! i) as [b |]; [eauto | done].
  - intros [Hi (b & Hb & Hd)]. split; [done |]. by rewrite Hb.
Qed.

Lemma dynamicBodies_sublist (m : gmap nat Body) (w : list nat) :
  dynamicBodies m w `sublist_of` w.
Proof.
  unfold dynamicBodies. induction w as [| x w IH]; simpl; [done |].
  destruct (match m !! x with Some b => isDynamic b | None => false end).
  - by apply sublist_skip.
  - by apply sublist_cons.
Qed.

Lemma dynamicBodies_NoDup (m : gmap nat Body) (w : list nat) :
  NoDup w -> NoDup (dynamicBodies m w).
Proof.
  intros H. eapply sublist_NoDup; [done | apply dynamicBodies_sublist].
Qed.

(** A [forEach] over the dynamic bodies, read at one body of the world. *)
Lemma forEach_dynamic_lookup (f : Body -> Body) (m : gmap nat Body)
    (w : list nat) (i : nat) (b : Body) :
  NoDup w -> m !! i = Some b ->
  forEachBody f (dynamicBodies m w) m !! i =
    Some (if bool_decide (i ∈ w) && isDynamic b then f b else b).
Proof.
  intros Hnd Hb.
  destruct (bool_decide (i ∈ w) && isDynamic b) eqn:E.
  - apply andb_true_iff in E as [Hi Hd]. apply bool_decide_eq_true in Hi.
    rewrite forEachBody_lookup_in.
    + by rewrite Hb.
    + by apply dynamicBodies_NoDup.
    + apply dynamicBodies_elem. eauto.
  - rewrite forEachBody_lookup_notin; [done |].
    intros Hin. apply dynamicBodies_elem in Hin as [Hi (b' & Hb' & Hd)].
    rewrite Hb in Hb'. injection Hb' as <-.
    apply andb_false_iff in E as [E | E]; [| congruence].
    apply bool_decide_eq_false in E. contradiction.
Qed.

Lemma example_world_NoDup (cueVel redVel : Vec) :
  NoDup (world (exampleSession cueVel redVel)).
Proof. simpl. apply (bool_decide_unpack _). by compute. Qed.

(** ** The friction pass *)

Lemma frictionPass_lookup (s : Session) (i : nat) (b : Body) :
  NoDup (world s) -> bodies s !! i = Some b ->
  bodies (frictionPass s) !! i =
    Some (if bool_decide (i ∈ world s) && isDynamic b
          then frictionBody (rollingFrictionRef s) b else b).
Proof. intros Hnd Hb. unfold frictionPass. simpl. by apply forEach_dynamic_lookup. Qed.

Lemma frictionPass_world (s : Session) : world (frictionPass s) = world s.
Proof. reflexivity. Qed.

(** C1: for a non-static, non-sensor body of the world, the friction pass
    (i) zeroes the linear and the angular velocity when the speed is strictly
    between 0 and 0.15; (ii) otherwise, when the rolling-friction coefficient
    is positive and the speed exceeds 0.15, rescales the velocity by the
    non-negative factor [max(0, speed - rf) / speed], so that the new speed is
    [max(0, speed - rf)] and the direction is kept; (iii) in every remaining
    case, speed 0 and speed exactly 0.15 included, leaves the body as it
    was. *)
Theorem friction_pass_on_dynamic_body (s : Session) (i : nat) (b : Body) :
  NoDup (world s) -> i ∈ world s -> bodies s !! i = Some b ->
  isDynamic b = true ->
  let speed := magnitude (velocity b) in
  let rf := rollingFrictionRef s in
  exists b', bodies (frictionPass s) !! i = Some b' /\
    (0 < speed < 0.15 ->
       velocity b' = mkVec 0 0 /\ angularVelocity b' = 0) /\
    (~ 0 < speed < 0.15 -> rf > 0 -> speed > 0.15 ->
       let k := Rmax 0 (speed - rf) / speed in
       0 <= k /\
       velocity b' = mkVec (vx (velocity b) * k) (vy (velocity b) * k) /\
       magnitude (velocity b') = Rmax 0 (speed - rf) /\
       angularVelocity b' = angularVelocity b) /\
    (~ 0 < speed < 0.15 -> ~ (rf > 0 /\ speed > 0.15) -> b' = b).
Proof.
  intros Hnd Hi Hb Hd speed rf.
  exists (frictionBody rf b). split.
  { rewrite (frictionPass_lookup s i b Hnd Hb).
    by rewrite Hd, bool_decide_eq_true_2. }
  split; [| split].
  - intros Hslow. by rewrite frictionBody_slow.
  - intros _ Hrf Hfast k.
    assert (0 <= k) as Hk.
    { unfold k. apply Rmult_le_pos; [apply Rmax_l |].
      apply Rlt_le, Rinv_0_lt_compat. lra. }
    rewrite frictionBody_roll by done. simpl.
    repeat split; try done.
    fold speed. fold k. rewrite magnitude_scaled by done.
    fold speed. unfold k. field. lra.
  - intros H1 H2. by apply frictionBody_rest.
Qed.

Lemma friction_pass_on_dynamic_body_witness :
  exists b',
    bodies (frictionPass (exampleSession (mkVec 0 0) (mkVec 3 0))) !! 2%nat
      = Some b' /\
    velocity b' = mkVec (3 * (Rmax 0 (3 - DEFAULTS_rollingFriction) / 3))
                        (0 * (Rmax 0 (3 - DEFAULTS_rollingFriction) / 3)).
Proof.
  assert (magnitude (mkVec 3 0) = 3) as Hm by (apply magnitude_axis; lra).
  destruct (friction_pass_on_dynamic_body
              (exampleSession (mkVec 0 0) (mkVec 3 0)) 2%nat
              (exampleBall "red-7" (mkVec 600 300) (mkVec 3 0)))
    as (b' & Hb' & _ & Hroll & _).
  - apply example_world_NoDup.
  - apply (bool_decide_unpack _). by compute.
  - reflexivity.
  - reflexivity.
  - exists b'. split; [exact Hb' |].
    simpl in Hroll. rewrite Hm in Hroll.
    apply Hroll; unfold DEFAULTS_rollingFriction; lra.
Defined.

(** ** Iterating the friction pass on one ball *)

Lemma frictionBody_velocity_zero (rf : R) (b : Body) :
  velocity b = mkVec 0 0 -> velocity (frictionBody rf b) = mkVec 0 0.
Proof.
  intros Hv. rewrite frictionBody_rest; [done | |];
    rewrite (proj2 (magnitude_zero_iff _) Hv); lra.
Qed.

Lemma frictionBody_roll_speed (rf : R) (b : Body) :
  rf > 0 -> magnitude (velocity b) > 0.15 ->
  magnitude (velocity (frictionBody rf b))
    = Rmax 0 (magnitude (velocity b) - rf).
Proof.
  intros Hrf Hs. rewrite frictionBody_roll by done. simpl.
  rewrite magnitude_scaled.
  - field. lra.
  - apply Rmult_le_pos; [apply Rmax_l |].
    apply Rlt_le, Rinv_0_lt_compat. lra.
Qed.

(** X1: away from the threshold value the pass does stop a ball: if no
    [speed - k * rf] equals 0.15, then after any [n] passes with
    [speed <= n * rf] (so after [ceil(speed / rf)] passes) the velocity is
    exactly zero. *)
Lemma friction_stops_off_threshold (rf : R) (n : nat) (b : Body) :
  rf > 0 ->
  (forall k : nat, magnitude (velocity b) - INR k * rf <> 0.15) ->
  magnitude (velocity b) <= INR n * rf ->
  velocity (Nat.iter n (frictionBody rf) b) = mkVec 0 0.
Proof.
  intros Hrf. revert b.
  induction n as [| n IH]; intros b Hoff Hle.
  { simpl in *. apply magnitude_zero_iff.
    pose proof (magnitude_nonneg (velocity b)). lra. }
  rewrite Nat.iter_succ_r. rewrite S_INR in Hle.
  pose proof (magnitude_nonneg (velocity b)) as H0.
  pose proof (pos_INR n) as Hn.
  destruct (Rle_lt_dec (magnitude (velocity b)) 0) as [Hz | Hpos].
  { (* at rest already *)
    assert (velocity b = mkVec 0 0) as Hv by (apply magnitude_zero_iff; lra).
    apply IH.
    - intros k. rewrite (proj2 (magnitude_zero_iff _)) by
        by apply frictionBody_velocity_zero.
      pose proof (pos_INR k). nra.
    - rewrite (proj2 (magnitude_zero_iff _)) by
        by apply frictionBody_velocity_zero.
      nra. }
  destruct (Rlt_le_dec (magnitude (velocity b)) 0.15) as [Hslow | Hge].
  { (* below the threshold: stopped by this pass *)
    assert (velocity (frictionBody rf b) = mkVec 0 0) as Hv
      by by rewrite frictionBody_slow.
    apply IH.
    - intros k. rewrite (proj2 (magnitude_zero_iff _) Hv).
      pose proof (pos_INR k). nra.
    - rewrite (proj2 (magnitude_zero_iff _) Hv). nra. }
  assert (magnitude (velocity b) > 0.15) as Hfast.
  { specialize (Hoff 0%nat). simpl in Hoff. lra. }
  pose proof (frictionBody_roll_speed rf b Hrf Hfast) as Hsp.
  apply IH; rewrite Hsp.
  - intros k. destruct (Rle_lt_dec (magnitude (velocity b) - rf) 0) as [Hn0 | Hp0].
    + rewrite Rmax_left by done. pose proof (pos_INR k). nra.
    + rewrite Rmax_right by lra.
      specialize (Hoff (S k)). rewrite S_INR in Hoff. lra.
  - apply Rmax_lub; nra.
Qed.

(** C3 (failing input): a ball whose velocity is (0.15, 0) has speed exactly
    0.15; neither branch of the pass applies, so the pass leaves it as it is,
    however often it runs and whatever the rolling-friction coefficient.  Its
    velocity never becomes zero, while the claimed bound for [rf = 0.0006] is
    [ceil(0.15 / 0.0006) = 250] passes. *)
Theorem friction_stuck_at_threshold (rf : R) (n : nat) :
  Nat.iter n (frictionBody rf)
    (exampleBall "cue" (mkVec 300 300) (mkVec 0.15 0))
  = exampleBall "cue" (mkVec 300 300) (mkVec 0.15 0) /\
  velocity (Nat.iter n (frictionBody rf)
              (exampleBall "cue" (mkVec 300 300) (mkVec 0.15 0)))
  <> mkVec 0 0.
Proof.
  assert (Nat.iter n (frictionBody rf)
            (exampleBall "cue" (mkVec 300 300) (mkVec 0.15 0))
          = exampleBall "cue" (mkVec 300 300) (mkVec 0.15 0)) as Hfix.
  { induction n as [| n IH]; [done |]. simpl. rewrite IH.
    apply frictionBody_rest; simpl; rewrite magnitude_axis; lra. }
  split; [exact Hfix |]. rewrite Hfix. simpl. intros [= H]. lra.
Qed.

(** ** The order of a tick *)

Lemma trigger_beforeUpdate (pairs : list (nat * nat)) (s : Session) :
  trigger beforeUpdate pairs s = frictionPass s.
Proof. reflexivity. Qed.

Lemma trigger_collisionStart (pairs : list (nat * nat)) (s : Session) :
  trigger collisionStart pairs s = onCollisionStart pairs s.
Proof. reflexivity. Qed.


Lemma example_cue_speed : magnitude (mkVec 0.1 0) = 0.1.
Proof. apply magnitude_axis. lra. Qed.

(** In the toy engine, a cue ball creeping at speed 0.1 is stopped by the
    pass before it is moved, and stays at x = 300. *)
Lemma example_tick_position :
  position <$>
    (bodies (tick eulerIntegrate noPairs noResolve
               (exampleSession (mkVec 0.1 0) (mkVec 0 0))) !! 1%nat)
  = Some (mkVec (300 + 0) (300 + 0)).
Proof.
  unfold tick. rewrite trigger_beforeUpdate, trigger_collisionStart.
  unfold noPairs, noResolve, onCollisionStart.
  cbn [fold_left withBodies bodies world]. unfold eulerIntegrate.
  rewrite frictionPass_world.
  rewrite forEachBody_lookup_in;
    [| apply example_world_NoDup | simpl; set_solver].
  rewrite (frictionPass_lookup _ 1%nat
             (exampleBall "cue" (mkVec 300 300) (mkVec 0.1 0))
             (example_world_NoDup _ _) eq_refl).
  rewrite bool_decide_eq_true_2 by (simpl; set_solver).
  cbn [isDynamic exampleBall setVelocity createBall isStatic isSensor negb andb].
  rewrite frictionBody_slow by (simpl; rewrite example_cue_speed; lra).
  reflexivity.
Qed.

(** In the order the specification words, the same ball is moved first. *)
Lemma example_tick_spec_order_position :
  position <$>
    (bodies (tick_spec_order eulerIntegrate noPairs noResolve
               (exampleSession (mkVec 0.1 0) (mkVec 0 0))) !! 1%nat)
  = Some (mkVec (300 + 0.1) (300 + 0)).
Proof.
  unfold tick_spec_order, noPairs, noResolve, onCollisionStart.
  cbn [fold_left withBodies bodies world].
  set (s1 := withBodies (withBodies _ _) _).
  assert (NoDup (world s1)) as Hnd by apply example_world_NoDup.
  assert (bodies s1 !! 1%nat
          = Some (setPosition
                    (exampleBall "cue" (mkVec 300 300) (mkVec 0.1 0))
                    (mkVec (300 + 0.1) (300 + 0)))) as Hb.
  { unfold s1, eulerIntegrate. cbn [bodies withBodies].
    rewrite forEachBody_lookup_in;
      [done | apply example_world_NoDup | simpl; set_solver]. }
  rewrite (frictionPass_lookup s1 1%nat _ Hnd Hb).
  rewrite bool_decide_eq_true_2 by (simpl; set_solver).
  cbn [isDynamic exampleBall setVelocity setPosition createBall isStatic
       isSensor negb andb].
  rewrite frictionBody_slow by (simpl; rewrite example_cue_speed; lra).
  reflexivity.
Qed.


(** ** [Math.atan2]: the unit vector of an angle *)

Lemma hypot_factor (x y : R) :
  x <> 0 -> sqrt (x * x + y * y) = Rabs x * sqrt (1 + (y / x)²).
Proof.
  intros Hx.
  replace (x * x + y * y) with ((x * x) * (1 + (y / x)²))
    by (unfold Rsqr; field; done).
  rewrite sqrt_mult; [| nra | unfold Rsqr; nra].
  f_equal. fold (Rsqr x). apply sqrt_Rsqr_abs.
Qed.

Lemma sqrt_one_plus_sqr_pos (t : R) : 0 < sqrt (1 + t²).
Proof. apply sqrt_lt_R0. unfold Rsqr. nra. Qed.

Lemma cos_atan2 (y x : R) :
  (x <> 0 \/ y <> 0) -> cos (atan2 y x) = x / sqrt (x * x + y * y).
Proof.
  intros Hxy. unfold atan2.
  pose proof (sqrt_one_plus_sqr_pos (y / x)) as Hq.
  destruct (Rlt_dec 0 x) as [Hx | Hx].
  { rewrite cos_atan, hypot_factor by lra. rewrite Rabs_right by lra.
    field. lra. }
  destruct (Rlt_dec x 0) as [Hx' | Hx'].
  { rewrite hypot_factor by lra. rewrite Rabs_left by lra.
    destruct (Rle_dec 0 y).
    - rewrite neg_cos, cos_atan. field. lra.
    - rewrite cos_minus, cos_PI, sin_PI, cos_atan. field. lra. }
  assert (x = 0) as -> by lra.
  assert (y <> 0) as Hy by (destruct Hxy; [lra | done]).
  destruct (Rlt_dec 0 y); [| destruct (Rlt_dec y 0); [| lra]].
  - rewrite cos_PI2. unfold Rdiv. lra.
  - rewrite cos_neg, cos_PI2. unfold Rdiv. lra.
Qed.

Lemma sin_atan2 (y x : R) :
  (x <> 0 \/ y <> 0) -> sin (atan2 y x) = y / sqrt (x * x + y * y).
Proof.
  intros Hxy. unfold atan2.
  pose proof (sqrt_one_plus_sqr_pos (y / x)) as Hq.
  destruct (Rlt_dec 0 x) as [Hx | Hx].
  { rewrite sin_atan, hypot_factor by lra. rewrite Rabs_right by lra.
    field. lra. }
  destruct (Rlt_dec x 0) as [Hx' | Hx'].
  { rewrite hypot_factor by lra. rewrite Rabs_left by lra.
    destruct (Rle_dec 0 y).
    - rewrite neg_sin, sin_atan. field. lra.
    - rewrite sin_minus, cos_PI, sin_PI, sin_atan. field. lra. }
  assert (x = 0) as -> by lra.
  assert (y <> 0) as Hy by (destruct Hxy; [lra | done]).
  replace (0 * 0 + y * y) with (y * y) by lra.
  destruct (Rlt_dec 0 y); [| destruct (Rlt_dec y 0); [| lra]].
  - rewrite sin_PI2, sqrt_square by lra. field. lra.
  - rewrite sin_neg, sin_PI2.
    replace (y * y) with ((- y) * (- y)) by lra.
    rewrite sqrt_square by lra. field. lra.
Qed.

(** ** Releasing the pointer *)

Lemma pullPower_le_dist (from pos : Vec) :
  pullPower from pos <= magnitude (vsub from pos).
Proof. unfold pullPower, magnitude. simpl. apply Rmin_l. Qed.

Lemma pull_nonzero (from pos : Vec) :
  0 < magnitude (vsub from pos) ->
  vx from - vx pos <> 0 \/ vy from - vy pos <> 0.
Proof.
  intros Hd.
  destruct (Req_dec (vx from - vx pos) 0) as [Hx | Hx]; [| by left].
  destruct (Req_dec (vy from - vy pos) 0) as [Hy | Hy]; [| by right].
  unfold magnitude in Hd. simpl in Hd. rewrite Hx, Hy in Hd.
  replace (0 * 0 + 0 * 0) with 0 in Hd by lra. rewrite sqrt_0 in Hd. lra.
Qed.

(** The force of a shot points from the pointer to the cue ball and has the
    magnitude [(power / 300) * 0.08]. *)
Lemma shotForce_vector (from pos : Vec) :
  0 < magnitude (vsub from pos) ->
  let k := pullPower from pos / 300 * 0.08 / magnitude (vsub from pos) in
  0 <= k /\
  shotForce from pos = mkVec (vx (vsub from pos) * k) (vy (vsub from pos) * k) /\
  magnitude (shotForce from pos) = pullPower from pos / 300 * 0.08.
Proof.
  intros Hd k.
  assert (0 <= pullPower from pos) as Hp.
  { unfold pullPower. apply Rmin_glb; [apply sqrt_pos | lra]. }
  assert (0 <= k) as Hk.
  { unfold k. apply Rmult_le_pos; [lra |].
    apply Rlt_le, Rinv_0_lt_compat. done. }
  assert (shotForce from pos
          = mkVec (vx (vsub from pos) * k) (vy (vsub from pos) * k)) as Hf.
  { unfold shotForce.
    rewrite cos_atan2, sin_atan2 by by apply pull_nonzero.
    unfold k, magnitude in *. simpl in *. f_equal; field; lra. }
  repeat split; [done | done |].
  rewrite Hf, magnitude_scaled by done. unfold k. field. lra.
Qed.

(** C4: on pointer release while aiming, with [d] the pull distance from the
    pointer to the cue ball clamped to 300: if [d > 5], the cue ball receives,
    at its centre (no torque), a force of magnitude [(d / 300) * 0.08] that is
    a non-negative multiple of [cue position - pointer]; if [d <= 5] no body
    changes; in both cases the gesture state is discarded and the shot-power
    display is 0. *)
Theorem onMouseUp_shot (s : Session) (pos start : Vec) (c : nat) (cue : Body) :
  isDraggingRef s = true -> dragStartRef s = Some start ->
  cueBallRef s = Some c -> bodies s !! c = Some cue ->
  let dist := magnitude (vsub (position cue) pos) in
  let d := Rmin dist 300 in
  let s' := onMouseUp pos s in
  (d > 5 ->
     exists f cue',
       bodies s' = <[c := cue']> (bodies s) /\
       force cue' = mkVec (vx (force cue) + vx f) (vy (force cue) + vy f) /\
       torque cue' = torque cue /\
       velocity cue' = velocity cue /\ position cue' = position cue /\
       magnitude f = d / 300 * 0.08 /\
       0 <= d / 300 * 0.08 / dist /\
       f = mkVec ((vx (position cue) - vx pos) * (d / 300 * 0.08 / dist))
                 ((vy (position cue) - vy pos) * (d / 300 * 0.08 / dist))) /\
  (d <= 5 -> bodies s' = bodies s) /\
  isDraggingRef s' = false /\ dragStartRef s' = None /\
  cueLineRef s' = None /\ isAiming s' = false /\ shotPower s' = 0%Z /\
  world s' = world s /\ pottedBalls s' = pottedBalls s /\
  isCueBallPotted s' = isCueBallPotted s.
Proof.
  intros Hdrag Hstart Hc Hcue dist d s'.
  assert (d = pullPower (position cue) pos) as Hd by reflexivity.
  unfold s', onMouseUp. rewrite Hdrag, Hstart, Hc, Hcue. simpl negb. cbv iota.
  split; [| split].
  - intros Hgt.
    assert (Rgtb (pullPower (position cue) pos) 5 = true) as ->
      by (apply Rgtb_true; lra).
    assert (0 < dist) as Hpos.
    { pose proof (pullPower_le_dist (position cue) pos). fold dist in H. lra. }
    destruct (shotForce_vector (position cue) pos Hpos) as (Hk & Hf & Hm).
    exists (shotForce (position cue) pos),
           (applyForce cue (position cue) (shotForce (position cue) pos)).
    repeat split; try done. simpl. lra.
  - intros Hle.
    assert (Rgtb (pullPower (position cue) pos) 5 = false) as ->
      by (apply Rgtb_false; lra).
    done.
  - destruct (Rgtb _ _); done.
Qed.

Lemma example_pull_distance :
  magnitude (vsub (mkVec 300 300) (mkVec 200 300)) = 100.
Proof.
  unfold magnitude. simpl.
  replace ((300 - 200) * (300 - 200) + (300 - 300) * (300 - 300))
    with (100 * 100) by lra.
  apply sqrt_square. lra.
Qed.

(** The scenario of the specification: cue ball at rest at (300, 300), release
    at (200, 300); the force is [(100 / 300) * 0.08] along +x. *)
Lemma onMouseUp_shot_witness :
  exists f cue',
    bodies (onMouseUp (mkVec 200 300) exampleAiming)
      = <[1%nat := cue']> (bodies exampleAiming) /\
    force cue' = mkVec (0 + vx f) (0 + vy f) /\
    vx f = 100 / 300 * 0.08 /\ vy f = 0 /\
    shotPower (onMouseUp (mkVec 200 300) exampleAiming) = 0%Z /\
    isAiming (onMouseUp (mkVec 200 300) exampleAiming) = false.
Proof.
  destruct (onMouseUp_shot exampleAiming (mkVec 200 300) (mkVec 300 300) 1%nat
              (exampleBall "cue" (mkVec 300 300) (mkVec 0 0))
              eq_refl eq_refl eq_refl eq_refl)
    as (Hshot & _ & _ & _ & _ & Haim & Hpow & _).
  simpl position in Hshot. rewrite example_pull_distance in Hshot.
  rewrite Rmin_left in Hshot by lra.
  destruct Hshot as (f & cue' & Hb & Hf & _ & _ & _ & _ & _ & Hv); [lra |].
  exists f, cue'. repeat split; try done.
  - rewrite Hv. simpl. field.
  - rewrite Hv. simpl. lra.
Defined.

(** ** Pressing the pointer *)

Lemma allBallsStopped_true (s : Session) :
  allBallsStopped s = true <-> allAtRest s.
Proof.
  unfold allBallsStopped, allAtRest. rewrite forallb_forall. split.
  - intros H i b Hi Hb Hd.
    specialize (H i). rewrite Hb in H. apply Rltb_true. apply H.
    apply list_elem_of_In, dynamicBodies_elem. eauto.
  - intros H i Hi.
    apply list_elem_of_In, dynamicBodies_elem in Hi as [Hi (b & Hb & Hd)].
    rewrite Hb. apply Rltb_true. eauto.
Qed.

Lemma allBallsStopped_false (s : Session) (i : nat) (b : Body) :
  i ∈ world s -> bodies s !! i = Some b -> isDynamic b = true ->
  0.1 <= magnitude (velocity b) -> allBallsStopped s = false.
Proof.
  intros Hi Hb Hd Hv. apply not_true_is_false. intros Ht.
  apply allBallsStopped_true in Ht. specialize (Ht i b Hi Hb Hd). lra.
Qed.


Lemma example_allAtRest : allAtRest (exampleSession (mkVec 0 0) (mkVec 0 0)).
Proof.
  intros i b Hi Hb Hd. simpl in Hi.
  assert (velocity b = mkVec 0 0) as Hv.
  { repeat (apply elem_of_cons in Hi as [-> | Hi]);
      [| | | by apply elem_of_nil in Hi];
      injection Hb as <-; reflexivity. }
  rewrite (proj2 (magnitude_zero_iff _) Hv). lra.
Qed.

Lemma example_press_distance :
  magnitude (vsub (mkVec 305 300) (mkVec 300 300)) = 5.
Proof.
  unfold magnitude. simpl.
  replace ((305 - 300) * (305 - 300) + (300 - 300) * (300 - 300))
    with (5 * 5) by lra.
  apply sqrt_square. lra.
Qed.


(** ** Removing bodies from the world *)

Lemma removeBody_sublist (i : nat) (w : list nat) :
  removeBody i w `sublist_of` w.
Proof.
  induction w as [| x w IH]; simpl; [done |].
  destruct (Nat.eqb x i).
  - by apply sublist_cons.
  - by apply sublist_skip.
Qed.

Lemma removeBody_notin (i : nat) (w : list nat) :
  NoDup w -> i ∉ removeBody i w.
Proof.
  induction w as [| x w IH]; intros Hnd; simpl.
  { apply not_elem_of_nil. }
  apply NoDup_cons in Hnd as [Hx Hnd].
  destruct (Nat.eqb x i) eqn:E.
  - apply Nat.eqb_eq in E. by subst.
  - apply Nat.eqb_neq in E. apply not_elem_of_cons. split; [done | by apply IH].
Qed.

Lemma removeBody_other (i j : nat) (w : list nat) :
  j <> i -> j ∈ w -> j ∈ removeBody i w.
Proof.
  intros Hne. induction w as [| x w IH]; intros Hj; simpl; [done |].
  destruct (Nat.eqb x i) eqn:E.
  - apply Nat.eqb_eq in E. subst.
    apply elem_of_cons in Hj as [-> | Hj]; [done | done].
  - apply elem_of_cons in Hj as [-> | Hj]; apply elem_of_cons; [by left |].
    right. by apply IH.
Qed.

(** ** Pocket contacts *)

(** What the handler does once it has found the ball of a pair. *)
Lemma pocketPair_ball (s : Session) (pair : nat * nat) (p b : nat)
    (pocket ball : Body) :
  pair = (p, b) \/ pair = (b, p) ->
  bodies s !! p = Some pocket -> bodies s !! b = Some ball ->
  isPocketLabel (label pocket) = true ->
  isPocketLabel (label ball) = false -> isStatic ball = false ->
  pocketPair s pair =
    if String.eqb (label ball) "cue" then
      withCueBallPotted (withWorld s (removeBody b (world s))) true
    else
      withPottedBalls (withWorld s (removeBody b (world s)))
        (pottedBalls s ++ [label ball]).
Proof.
  intros [-> | ->] Hp Hb Hpl Hbl Hns; unfold pocketPair; simpl;
    rewrite Hp, Hb, ?Hpl, ?Hbl; simpl; by rewrite Hns.
Qed.

(** ** Steps that are not resets only shrink the world *)

Lemma pocketPair_world_sublist (s : Session) (pair : nat * nat) :
  world (pocketPair s pair) `sublist_of` world s.
Proof.
  unfold pocketPair.
  destruct (bodies s !! pair.1) as [bodyA |]; [| done].
  destruct (bodies s !! pair.2) as [bodyB |]; [| done].
  destruct (isPocketLabel (label bodyA)).
  - destruct (isStatic bodyB); [done |].
    destruct (String.eqb _ _); apply removeBody_sublist.
  - destruct (isPocketLabel (label bodyB)); [| done].
    destruct (isStatic bodyA); [done |].
    destruct (String.eqb _ _); apply removeBody_sublist.
Qed.

Lemma onCollisionStart_world_sublist (pairs : list (nat * nat)) (s : Session) :
  world (onCollisionStart pairs s) `sublist_of` world s.
Proof.
  unfold onCollisionStart. revert s.
  induction pairs as [| pair pairs IH]; intros s; simpl; [done |].
  etrans; [apply IH | apply pocketPair_world_sublist].
Qed.

Lemma onMouseDown_world (pos : Vec) (s : Session) :
  world (onMouseDown pos s) = world s.
Proof.
  unfold onMouseDown. destruct (negb _); [done |].
  destruct (cueBallRef s) as [c |]; [| done].
  destruct (bodies s !! c); [| done]. by destruct (Rltb _ _).
Qed.

Lemma onMouseMove_world (pos : Vec) (s : Session) :
  world (onMouseMove pos s) = world s.
Proof.
  unfold onMouseMove. destruct (negb _); [done |].
  destruct (dragStartRef s); [| done].
  destruct (cueBallRef s) as [c |]; [| done].
  by destruct (bodies s !! c).
Qed.

Lemma onMouseUp_world (pos : Vec) (s : Session) :
  world (onMouseUp pos s) = world s.
Proof.
  unfold onMouseUp. destruct (negb _); [done |].
  destruct (dragStartRef s); [| done].
  destruct (cueBallRef s) as [c |]; [| done].
  destruct (bodies s !! c); [| done]. by destruct (Rgtb _ _).
Qed.

Section Trace.

Variable ballArea : R.
Variable integrate : gmap nat Body -> list nat -> gmap nat Body.
Variable detect : gmap nat Body -> list nat -> list (nat * nat).
Variable resolve : gmap nat Body -> list nat -> list (nat * nat) -> gmap nat Body.

Lemma tick_world_sublist (s : Session) :
  world (tick integrate detect resolve s) `sublist_of` world s.
Proof.
  unfold tick. rewrite trigger_beforeUpdate, trigger_collisionStart.
  cbn [world withBodies].
  etrans; [apply onCollisionStart_world_sublist | done].
Qed.

Lemma step_world_sublist (s : Session) (e : Event) :
  isReset e = false ->
  world (step ballArea integrate detect resolve s e) `sublist_of` world s.
Proof.
  destruct e; intros He; try discriminate; simpl.
  - apply tick_world_sublist.
  - apply onCollisionStart_world_sublist.
  - by rewrite onMouseDown_world.
  - by rewrite onMouseMove_world.
  - by rewrite onMouseUp_world.
  - done.
Qed.

Lemma run_world_sublist (es : list Event) (s : Session) :
  Forall (fun e => isReset e = false) es ->
  world (run ballArea integrate detect resolve s es) `sublist_of` world s.
Proof.
  unfold run. revert s.
  induction es as [| e es IH]; intros s Hes; simpl; [done |].
  apply Forall_cons in Hes as [He Hes].
  etrans; [by apply IH | by apply step_world_sublist].
Qed.

End Trace.

(** ** [resetCueBall] *)

Lemma inWorld_true (i : nat) (w : list nat) : inWorld i w = true <-> i ∈ w.
Proof.
  unfold inWorld. rewrite existsb_exists, list_elem_of_In. split.
  - intros (x & Hx & E). apply Nat.eqb_eq in E. by subst.
  - intros Hi. exists i. split; [done | apply Nat.eqb_refl].
Qed.

Lemma inWorld_false (i : nat) (w : list nat) : inWorld i w = false <-> i ∉ w.
Proof.
  rewrite <- inWorld_true. destruct (inWorld i w); split; done.
Qed.

Lemma cueSpot_value : cueSpot = mkVec 340 340.
Proof.
  unfold cueSpot, CUSHION, TABLE_WIDTH, TABLE_HEIGHT. f_equal; lra.
Qed.

(** Calling [resetCueBall] twice is calling it once, in every state. *)
Lemma resetCueBall_idempotent (s : Session) :
  resetCueBall (resetCueBall s) = resetCueBall s.
Proof.
  unfold resetCueBall at 2.
  destruct (cueBallRef s) as [c |] eqn:Hc.
  2: { unfold resetCueBall. by rewrite Hc. }
  cbn zeta. cbn [world bodies withBodies].
  destruct (inWorld c (world s)) eqn:Hin.
  - unfold resetCueBall. cbn [cueBallRef withCueBallPotted withBodies world bodies].
    rewrite Hc, Hin. cbn [withCueBallPotted withBodies world bodies
      nextId cueBallRef allBallsRef isDraggingRef dragStartRef cueLineRef
      lastForceRef rollingFrictionRef pottedBalls shotPower isAiming
      isCueBallPotted].
    rewrite alter_alter_eq. f_equal.
  - unfold resetCueBall.
    cbn [cueBallRef withCueBallPotted withBodies withWorld world bodies].
    rewrite Hc, Hin.
    assert (inWorld c (addBodies [c] (world s)) = true) as ->.
    { apply inWorld_true. unfold addBodies. set_solver. }
    cbn [withCueBallPotted withBodies withWorld world bodies
      nextId cueBallRef allBallsRef isDraggingRef dragStartRef cueLineRef
      lastForceRef rollingFrictionRef pottedBalls shotPower isAiming
      isCueBallPotted].
    rewrite alter_alter_eq. f_equal.
Qed.

(** C8: in both states of the cue ball, present in the world or potted,
    [resetCueBall] leaves the cue ball at (340, 340), that is
    (cushion + 0.25 * table width, table centre), with linear velocity (0, 0)
    and angular velocity 0 and with every other field as it was, adds it to
    the world exactly when it was absent (never a second time), clears the
    cue-ball-in-hand flag, touches no other body, and a second call changes
    nothing more. *)
Theorem resetCueBall_spec (s : Session) (c : nat) (cue : Body) :
  cueBallRef s = Some c -> bodies s !! c = Some cue ->
  let s' := resetCueBall s in
  (exists cue',
     bodies s' !! c = Some cue' /\
     position cue' = mkVec 340 340 /\
     velocity cue' = mkVec 0 0 /\
     angularVelocity cue' = 0 /\
     label cue' = label cue /\ isStatic cue' = isStatic cue /\
     isSensor cue' = isSensor cue /\ force cue' = force cue /\
     torque cue' = torque cue /\ frictionAir cue' = frictionAir cue /\
     density cue' = density cue /\ area cue' = area cue /\
     mass cue' = mass cue /\ restitution cue' = restitution cue /\
     friction cue' = friction cue) /\
  mkVec 340 340
    = mkVec (CUSHION + 0.25 * TABLE_WIDTH) (CUSHION + TABLE_HEIGHT / 2) /\
  (forall j, j <> c -> bodies s' !! j = bodies s !! j) /\
  (c ∈ world s -> world s' = world s) /\
  (c ∉ world s -> world s' = world s ++ [c]) /\
  (c ∈ world s') /\
  (NoDup (world s) -> NoDup (world s')) /\
  isCueBallPotted s' = false /\
  pottedBalls s' = pottedBalls s /\
  cueBallRef s' = Some c /\
  resetCueBall s' = s'.
Proof.
  intros Hc Hcue s'.
  assert (s' = resetCueBall s) as Hs' by reflexivity.
  unfold resetCueBall in Hs'. rewrite Hc in Hs'. cbn zeta in Hs'.
  cbn [world bodies withBodies] in Hs'.
  split.
  { exists (setAngularVelocity
              (setVelocity (setPosition cue (mkVec 340 340)) (mkVec 0 0)) 0).
    split; [| by repeat split].
    rewrite Hs'. destruct (inWorld c (world s)); cbn [bodies withCueBallPotted
      withWorld withBodies]; rewrite lookup_alter_eq, Hcue; simpl;
      by rewrite cueSpot_value. }
  split.
  { unfold CUSHION, TABLE_WIDTH, TABLE_HEIGHT. f_equal; lra. }
  split.
  { intros j Hj. rewrite Hs'.
    destruct (inWorld c (world s)); cbn [bodies withCueBallPotted
      withWorld withBodies]; by rewrite lookup_alter_ne. }
  assert (c ∈ world s -> world s' = world s) as Hin.
  { intros Hi. apply inWorld_true in Hi. rewrite Hs', Hi. done. }
  assert (c ∉ world s -> world s' = world s ++ [c]) as Hout.
  { intros Hi. apply inWorld_false in Hi. rewrite Hs', Hi. done. }
  split; [exact Hin |]. split; [exact Hout |].
  split.
  { destruct (decide (c ∈ world s)) as [Hi | Hi].
    - by rewrite Hin.
    - rewrite Hout by done. set_solver. }
  split.
  { intros Hnd. destruct (decide (c ∈ world s)) as [Hi | Hi].
    - by rewrite Hin.
    - rewrite Hout by done. apply NoDup_app. split; [done |].
      split; [| apply NoDup_singleton].
      intros x Hx Hx'. apply list_elem_of_singleton in Hx'. by subst. }
  split; [rewrite Hs'; by destruct (inWorld c (world s)) |].
  split; [rewrite Hs'; by destruct (inWorld c (world s)) |].
  split; [rewrite Hs'; by destruct (inWorld c (world s)) |].
  apply resetCueBall_idempotent.
Qed.

(** Both states in one run: a cue ball that moves and spins is potted, then
    reset; it is back in the world, in place and at rest. *)
Lemma resetCueBall_spec_witness :
  world (resetCueBall (pocketPair exampleSpinning (0%nat, 1%nat)))
    = [0%nat; 2%nat; 1%nat] /\
  isCueBallPotted (pocketPair exampleSpinning (0%nat, 1%nat)) = true /\
  isCueBallPotted (resetCueBall (pocketPair exampleSpinning (0%nat, 1%nat)))
    = false /\
  (velocity <$> bodies exampleSpinning !! 1%nat) = Some (mkVec 1 0) /\
  (angularVelocity <$> bodies exampleSpinning !! 1%nat) = Some 2 /\
  (position <$> bodies (resetCueBall
                          (pocketPair exampleSpinning (0%nat, 1%nat))) !! 1%nat)
    = Some (mkVec 340 340) /\
  (velocity <$> bodies (resetCueBall
                          (pocketPair exampleSpinning (0%nat, 1%nat))) !! 1%nat)
    = Some (mkVec 0 0) /\
  (angularVelocity <$>
     bodies (resetCueBall
               (pocketPair exampleSpinning (0%nat, 1%nat))) !! 1%nat)
    = Some 0.
Proof.
  destruct (resetCueBall_spec
              (pocketPair exampleSpinning (0%nat, 1%nat))
              1%nat
              (setAngularVelocity
                 (exampleBall "cue" (mkVec 300 300) (mkVec 1 0)) 2)
              eq_refl eq_refl)
    as ((cue' & Hb & Hp & Hv & Ha & _) & _ & _ & _ & Habsent & _ & _ & Hflag & _).
  split.
  { rewrite Habsent; [reflexivity |].
    change (1%nat ∉ [0%nat; 2%nat]). apply (bool_decide_unpack _). by compute. }
  split; [reflexivity |]. split; [exact Hflag |].
  split; [reflexivity |]. split; [reflexivity |].
  rewrite Hb. simpl. by rewrite Hp, Hv, Ha.
Defined.

(** ** [resetGame] *)

Lemma removeBody_app_notin (i : nat) (pre w : list nat) :
  i ∉ pre -> removeBody i (pre ++ w) = pre ++ removeBody i w.
Proof.
  induction pre as [| x pre IH]; intros Hi; simpl; [done |].
  apply not_elem_of_cons in Hi as [Hne Hi].
  destruct (Nat.eqb x i) eqn:E.
  - apply Nat.eqb_eq in E. congruence.
  - by rewrite IH.
Qed.

(** Removing, one [indexOf] at a time, the bodies that a filter selected
    leaves the bodies that the filter rejected, duplicates or not. *)
Lemma removeBodies_filter_gen (P : nat -> bool) (pre w : list nat) :
  (forall x, x ∈ pre -> P x = false) ->
  removeBodies (List.filter P w) (pre ++ w)
    = pre ++ List.filter (fun i => negb (P i)) w.
Proof.
  unfold removeBodies. revert pre.
  induction w as [| x w IH]; intros pre Hpre; simpl; [done |].
  destruct (P x) eqn:Px; simpl.
  - rewrite removeBody_app_notin.
    + simpl. rewrite Nat.eqb_refl. by apply IH.
    + intros Hin. apply Hpre in Hin. congruence.
  - replace (pre ++ x :: w) with ((pre ++ [x]) ++ w)
      by by rewrite <- app_assoc.
    rewrite IH.
    + by rewrite <- app_assoc.
    + intros y Hy. apply elem_of_app in Hy as [Hy | Hy]; [by apply Hpre |].
      apply list_elem_of_singleton in Hy. by subst.
Qed.

Lemma removeBodies_filter (P : nat -> bool) (w : list nat) :
  removeBodies (List.filter P w) w = List.filter (fun i => negb (P i)) w.
Proof.
  apply (removeBodies_filter_gen P [] w). intros x Hx.
  by apply elem_of_nil in Hx.
Qed.

Section Rack.

Variable ballArea : R.

Lemma allocBodies_lookup_old (bs : list Body) (n : nat) (m : gmap nat Body)
    (i : nat) :
  (i < n)%nat -> allocBodies bs n m !! i = m !! i.
Proof.
  revert n m. induction bs as [| b bs IH]; intros n m Hi; simpl; [done |].
  rewrite IH by lia. apply lookup_insert_ne. lia.
Qed.

Lemma allocBodies_lookup_new (bs : list Body) (n : nat) (m : gmap nat Body)
    (k : nat) (b : Body) :
  bs !! k = Some b -> allocBodies bs n m !! (n + k)%nat = Some b.
Proof.
  revert n m k. induction bs as [| b0 bs IH]; intros n m k Hk; [done |].
  destruct k as [| k]; simpl in *.
  - injection Hk as ->. rewrite allocBodies_lookup_old by lia.
    replace (n + 0)%nat with n by lia. apply lookup_insert_eq.
  - replace (n + S k)%nat with (S n + k)%nat by lia. by apply IH.
Qed.

Lemma rack_length : length (rack ballArea) = 22%nat.
Proof. reflexivity. Qed.

Lemma rack_labels :
  List.map label (rack ballArea) =
    [ "cue"; "red-0"; "red-1"; "red-2"; "red-3"; "red-4"; "red-5"; "red-6";
      "red-7"; "red-8"; "red-9"; "red-10"; "red-11"; "red-12"; "red-13";
      "red-14"; "yellow"; "green"; "brown"; "blue"; "pink"; "black" ]%string.
Proof. reflexivity. Qed.

End Rack.

Lemma rack_positions (ballArea : R) :
  List.map position (rack ballArea) =
    [ mkVec 340 340;
      redSpot 0 0;
      redSpot 1 0; redSpot 1 1;
      redSpot 2 0; redSpot 2 1; redSpot 2 2;
      redSpot 3 0; redSpot 3 1; redSpot 3 2; redSpot 3 3;
      redSpot 4 0; redSpot 4 1; redSpot 4 2; redSpot 4 3; redSpot 4 4;
      mkVec 280 208; mkVec 280 472; mkVec 280 340; mkVec 640 340;
      mkVec 823.75 340; mkVec 1108 340 ].
Proof.
  unfold rack, createBalls, rackCells, spots, redBall, redSpot, createBall,
    rackStartX, rackCy, rackSpacing, CUSHION, TABLE_WIDTH, TABLE_HEIGHT, BALL_R.
  cbn [fst snd List.map imap flat_map seq app position INR compose].
  repeat (f_equal; try lra).
Qed.

Lemma filter_none (f : nat -> bool) (l : list nat) :
  (forall x, x ∈ l -> f x = false) -> List.filter f l = [].
Proof.
  induction l as [| x l IH]; intros H; simpl; [done |].
  rewrite (H x) by (apply elem_of_cons; by left).
  apply IH. intros y Hy. apply H. apply elem_of_cons. by right.
Qed.

Lemma filter_all (f : nat -> bool) (l : list nat) :
  (forall x, x ∈ l -> f x = true) -> List.filter f l = l.
Proof.
  induction l as [| x l IH]; intros H; simpl; [done |].
  rewrite (H x) by (apply elem_of_cons; by left).
  f_equal. apply IH. intros y Hy. apply H. apply elem_of_cons. by right.
Qed.

Lemma rack_dynamic (ballArea : R) (k : nat) (b : Body) :
  rack ballArea !! k = Some b -> isDynamic b = true.
Proof.
  intros Hk.
  assert (Forall (fun b => isDynamic b = true) (rack ballArea)) as Hall
    by (unfold rack; simpl; repeat constructor).
  rewrite Forall_lookup in Hall. by eapply Hall.
Qed.

(** Every ball of the rack is a body the pocket handler takes for a ball: it
    is not static and its label does not start with "pocket-". *)
Lemma rack_ball_pottable (ballArea : R) (k : nat) (b : Body) :
  rack ballArea !! k = Some b ->
  isPocketLabel (label b) = false /\ isStatic b = false.
Proof.
  intros Hk.
  assert (Forall (fun b => isPocketLabel (label b) = false /\ isStatic b = false)
            (rack ballArea)) as Hall
    by (unfold rack; simpl; repeat constructor).
  rewrite Forall_lookup in Hall. by eapply Hall.
Qed.

(** C9: in every state whose world holds only bodies created so far,
    [resetGame] takes every non-static, non-sensor body out of the world,
    leaves the static bodies and the sensors in place and unchanged, adds the
    22 bodies of the rack in creation order (the cue ball "cue" at (340, 340),
    the reds "red-0" to "red-14" in the triangle, the six colours at their
    spots), which are then the only non-static, non-sensor bodies of the
    world, empties the potted sequence and clears the cue-ball-in-hand
    flag. *)
Theorem resetGame_spec (ballArea : R) (s : Session) :
  (forall i, i ∈ world s -> (i < nextId s)%nat) ->
  let s' := resetGame ballArea s in
  let n := nextId s in
  world s' = survivors s ++ seq n 22 /\
  (forall i b, i ∈ world s -> bodies s !! i = Some b -> isDynamic b = true ->
     i ∉ world s') /\
  (forall i b, i ∈ world s -> bodies s !! i = Some b -> isDynamic b = false ->
     i ∈ world s' /\ bodies s' !! i = Some b) /\
  (forall k b, rack ballArea !! k = Some b ->
     (n + k)%nat ∈ world s' /\ bodies s' !! (n + k)%nat = Some b) /\
  dynamicBodies (bodies s') (world s') = seq n 22 /\
  List.map label (rack ballArea) =
    [ "cue"; "red-0"; "red-1"; "red-2"; "red-3"; "red-4"; "red-5"; "red-6";
      "red-7"; "red-8"; "red-9"; "red-10"; "red-11"; "red-12"; "red-13";
      "red-14"; "yellow"; "green"; "brown"; "blue"; "pink"; "black" ]%string /\
  List.map position (rack ballArea) =
    [ mkVec 340 340;
      redSpot 0 0;
      redSpot 1 0; redSpot 1 1;
      redSpot 2 0; redSpot 2 1; redSpot 2 2;
      redSpot 3 0; redSpot 3 1; redSpot 3 2; redSpot 3 3;
      redSpot 4 0; redSpot 4 1; redSpot 4 2; redSpot 4 3; redSpot 4 4;
      mkVec 280 208; mkVec 280 472; mkVec 280 340; mkVec 640 340;
      mkVec 823.75 340; mkVec 1108 340 ] /\
  pottedBalls s' = [] /\ isCueBallPotted s' = false /\
  cueBallRef s' = Some n.
Proof.
  intros Hfresh s' n.
  assert (world s' = survivors s ++ seq n 22) as Hw.
  { unfold s', resetGame, survivors. cbn [world createBalls].
    unfold addBodies, dynamicBodies. by rewrite removeBodies_filter. }
  assert (forall i, i ∈ survivors s ->
            i ∈ world s /\
            match bodies s !! i with Some b => isDynamic b | None => false end
              = false) as Hsurv.
  { intros i Hi. unfold survivors in Hi.
    apply list_elem_of_In, filter_In in Hi as [Hi Hd].
    split; [by apply list_elem_of_In | by apply negb_true_iff]. }
  assert (forall i, (i < n)%nat -> bodies s' !! i = bodies s !! i) as Hold.
  { intros i Hi. unfold s', resetGame. cbn [bodies createBalls].
    by apply allocBodies_lookup_old. }
  assert (forall k b, rack ballArea !! k = Some b ->
            bodies s' !! (n + k)%nat = Some b) as Hnew.
  { intros k b Hk. unfold s', resetGame. cbn [bodies createBalls].
    by apply allocBodies_lookup_new. }
  split; [exact Hw |]. split; [| split; [| split; [| split]]].
  - intros i b Hi Hb Hd Hin. rewrite Hw in Hin.
    apply elem_of_app in Hin as [Hin | Hin].
    + apply Hsurv in Hin as [_ Hf]. rewrite Hb in Hf. congruence.
    + apply elem_of_seq in Hin. specialize (Hfresh i Hi). unfold n in Hin. lia.
  - intros i b Hi Hb Hd. split.
    + rewrite Hw. apply elem_of_app. left. unfold survivors.
      apply list_elem_of_In, filter_In. split; [by apply list_elem_of_In |].
      by rewrite Hb, Hd.
    + rewrite Hold by by apply Hfresh. done.
  - intros k b Hk. split; [| by apply Hnew].
    rewrite Hw. apply elem_of_app. right. apply elem_of_seq.
    apply lookup_lt_Some in Hk. rewrite rack_length in Hk. lia.
  - rewrite Hw. unfold dynamicBodies. rewrite List.filter_app.
    rewrite filter_none, filter_all; [done | |].
    + intros x Hx. apply elem_of_seq in Hx.
      destruct (rack ballArea !! (x - n)%nat) as [b |] eqn:Hb.
      * replace x with (n + (x - n))%nat by lia.
        rewrite (Hnew _ _ Hb). by eapply rack_dynamic.
      * apply lookup_ge_None in Hb. rewrite rack_length in Hb. lia.
    + intros x Hx. apply Hsurv in Hx as [Hx Hf].
      rewrite Hold by by apply Hfresh. done.
  - split; [apply rack_labels |]. split; [apply rack_positions |]. done.
Qed.

Lemma resetGame_spec_witness :
  world (resetGame exampleArea (exampleSession (mkVec 1 0) (mkVec 0 2)))
    = [0%nat] ++ seq 3 22 /\
  pottedBalls (resetGame exampleArea (exampleSession (mkVec 1 0) (mkVec 0 2)))
    = [] /\
  cueBallRef (resetGame exampleArea (exampleSession (mkVec 1 0) (mkVec 0 2)))
    = Some 3%nat.
Proof.
  destruct (resetGame_spec exampleArea (exampleSession (mkVec 1 0) (mkVec 0 2)))
    as (Hw & _ & _ & _ & _ & _ & _ & Hp & _ & Hc).
  - intros i Hi. simpl in *.
    repeat (apply elem_of_cons in Hi as [-> | Hi]); try lia.
    by apply elem_of_nil in Hi.
  - rewrite Hw, Hp, Hc. done.
Defined.

(** ** The global physics setter *)

(** A callback that does nothing more when repeated gives the same result
    whether or not a body is visited more than once. *)
Lemma forEachBody_lookup_idem (f : Body -> Body) (ids : list nat)
    (m : gmap nat Body) (i : nat) :
  (forall b, f (f b) = f b) -> i ∈ ids ->
  forEachBody f ids m !! i = f <$> m !! i.
Proof.
  intros Hidem. unfold forEachBody. revert m.
  induction ids as [| x ids IH]; intros m Hi.
  { by apply elem_of_nil in Hi. }
  simpl. destruct (decide (i ∈ ids)) as [Hin | Hout].
  - rewrite IH by done. destruct (decide (x = i)) as [-> | Hne].
    + rewrite lookup_alter_eq. destruct (m !! i); simpl; [| done].
      by rewrite Hidem.
    + by rewrite lookup_alter_ne.
  - apply elem_of_cons in Hi as [-> | Hi]; [| done].
    pose proof (forEachBody_lookup_notin f ids (alter f x m) x Hout) as Hn.
    unfold forEachBody in Hn. rewrite Hn. apply lookup_alter_eq.
Qed.

(** C10: [applyPhysicsSettings fAir rf dn] gives every non-static, non-sensor
    body of the world the air drag [fAir] and the mass [dn * area] (with the
    density [dn] it is derived from), sets the rolling-friction value to [rf],
    and changes nothing else: position, velocity, angular velocity,
    restitution, label and every other field of those bodies are as before,
    every other body (static, sensor, or outside the world) is as before, and
    so are the world and the rest of the session. *)
Theorem applyPhysicsSettings_frame (fAir rf dn : R) (s : Session) :
  let s' := applyPhysicsSettings fAir rf dn s in
  rollingFrictionRef s' = rf /\
  (forall i b, i ∈ world s -> bodies s !! i = Some b -> isDynamic b = true ->
     exists b', bodies s' !! i = Some b' /\
       frictionAir b' = fAir /\ mass b' = dn * area b /\ density b' = dn /\
       position b' = position b /\ velocity b' = velocity b /\
       angularVelocity b' = angularVelocity b /\
       restitution b' = restitution b /\ label b' = label b /\
       isStatic b' = isStatic b /\ isSensor b' = isSensor b /\
       area b' = area b /\ friction b' = friction b /\
       force b' = force b /\ torque b' = torque b) /\
  (forall i b, bodies s !! i = Some b -> isDynamic b = false ->
     bodies s' !! i = Some b) /\
  (forall i, i ∉ world s -> bodies s' !! i = bodies s !! i) /\
  world s' = world s /\ nextId s' = nextId s /\
  cueBallRef s' = cueBallRef s /\ allBallsRef s' = allBallsRef s /\
  isDraggingRef s' = isDraggingRef s /\ dragStartRef s' = dragStartRef s /\
  cueLineRef s' = cueLineRef s /\ lastForceRef s' = lastForceRef s /\
  pottedBalls s' = pottedBalls s /\ shotPower s' = shotPower s /\
  isAiming s' = isAiming s /\ isCueBallPotted s' = isCueBallPotted s.
Proof.
  intros s'. split; [done |]. split; [| split; [| split]].
  - intros i b Hi Hb Hd.
    exists (setDensity (setFrictionAir b fAir) dn). split; [| done].
    unfold s', applyPhysicsSettings. cbn [bodies world withBodies withRollingFriction].
    rewrite forEachBody_lookup_idem.
    + by rewrite Hb.
    + done.
    + apply dynamicBodies_elem. eauto.
  - intros i b Hb Hd.
    unfold s', applyPhysicsSettings. cbn [bodies world withBodies withRollingFriction].
    rewrite forEachBody_lookup_notin; [done |].
    intros Hin. apply dynamicBodies_elem in Hin as [_ (b' & Hb' & Hd')].
    congruence.
  - intros i Hi.
    unfold s', applyPhysicsSettings. cbn [bodies world withBodies withRollingFriction].
    rewrite forEachBody_lookup_notin; [done |].
    intros Hin. by apply dynamicBodies_elem in Hin as [? _].
  - done.
Qed.

Lemma applyPhysicsSettings_frame_witness :
  exists b',
    bodies (applyPhysicsSettings 0.03 0.001 0.01
              (exampleSession (mkVec 1 0) (mkVec 0 2))) !! 2%nat = Some b' /\
    frictionAir b' = 0.03 /\ mass b' = 0.01 * exampleArea /\
    velocity b' = mkVec 0 2 /\ label b' = "red-7"%string.
Proof.
  destruct (applyPhysicsSettings_frame 0.03 0.001 0.01
              (exampleSession (mkVec 1 0) (mkVec 0 2))) as (_ & Hdyn & _).
  destruct (Hdyn 2%nat (exampleBall "red-7" (mkVec 600 300) (mkVec 0 2)))
    as (b' & Hb' & Hf & Hm & _ & _ & Hv & _ & _ & Hl & _).
  - simpl. set_solver.
  - reflexivity.
  - reflexivity.
  - exists b'. by rewrite Hf, Hm, Hv, Hl.
Defined.

(** ** Well-formedness is an invariant *)

Lemma pocketPair_refs (s : Session) (pair : nat * nat) :
  nextId (pocketPair s pair) = nextId s /\
  cueBallRef (pocketPair s pair) = cueBallRef s.
Proof.
  unfold pocketPair.
  destruct (bodies s !! pair.1) as [bodyA |]; [| done].
  destruct (bodies s !! pair.2) as [bodyB |]; [| done].
  destruct (isPocketLabel (label bodyA)).
  - destruct (isStatic bodyB); [done |]. by destruct (String.eqb _ _).
  - destruct (isPocketLabel (label bodyB)); [| done].
    destruct (isStatic bodyA); [done |]. by destruct (String.eqb _ _).
Qed.

Lemma onCollisionStart_refs (pairs : list (nat * nat)) (s : Session) :
  nextId (onCollisionStart pairs s) = nextId s /\
  cueBallRef (onCollisionStart pairs s) = cueBallRef s.
Proof.
  unfold onCollisionStart. revert s.
  induction pairs as [| pair pairs IH]; intros s; simpl; [done |].
  destruct (IH (pocketPair s pair)) as [-> ->]. apply pocketPair_refs.
Qed.

Lemma onMouseDown_refs (pos : Vec) (s : Session) :
  nextId (onMouseDown pos s) = nextId s /\
  cueBallRef (onMouseDown pos s) = cueBallRef s.
Proof.
  unfold onMouseDown. destruct (negb _); [done |].
  destruct (cueBallRef s) as [c |] eqn:Hc; [| done].
  destruct (bodies s !! c); [| done]. by destruct (Rltb _ _).
Qed.

Lemma onMouseMove_refs (pos : Vec) (s : Session) :
  nextId (onMouseMove pos s) = nextId s /\
  cueBallRef (onMouseMove pos s) = cueBallRef s.
Proof.
  unfold onMouseMove. destruct (negb _); [done |].
  destruct (dragStartRef s); [| done].
  destruct (cueBallRef s) as [c |] eqn:Hc; [| done].
  by destruct (bodies s !! c).
Qed.

Lemma onMouseUp_refs (pos : Vec) (s : Session) :
  nextId (onMouseUp pos s) = nextId s /\
  cueBallRef (onMouseUp pos s) = cueBallRef s.
Proof.
  unfold onMouseUp. destruct (negb _); [done |].
  destruct (dragStartRef s); [| done].
  destruct (cueBallRef s) as [c |] eqn:Hc; [| done].
  destruct (bodies s !! c); [| done]. by destruct (Rgtb _ _).
Qed.

Lemma wellFormed_shrink (s s' : Session) :
  world s' `sublist_of` world s -> nextId s' = nextId s ->
  cueBallRef s' = cueBallRef s -> wellFormed s -> wellFormed s'.
Proof.
  intros Hsub Hn Hc (Hnd & Hlt & Hcue). repeat split.
  - by eapply sublist_NoDup.
  - intros i Hi. rewrite Hn. apply Hlt. by eapply elem_of_sublist.
  - intros c Hc'. rewrite Hn. apply Hcue. by rewrite <- Hc.
Qed.

Lemma resetCueBall_wellFormed (s : Session) :
  wellFormed s -> wellFormed (resetCueBall s).
Proof.
  intros Hwf. pose proof Hwf as (Hnd & Hlt & Hcue). unfold resetCueBall.
  destruct (cueBallRef s) as [c |] eqn:Hc; [| exact Hwf].
  cbn zeta. cbn [world withBodies].
  destruct (inWorld c (world s)) eqn:Hin.
  { repeat split; simpl; [exact Hnd | exact Hlt |].
    intros c' Hc'. apply Hcue. congruence. }
  apply inWorld_false in Hin. unfold addBodies. repeat split; simpl.
  - apply NoDup_app. split; [done |]. split; [| apply NoDup_singleton].
    intros x Hx Hx'. apply list_elem_of_singleton in Hx'. by subst.
  - intros i Hi. apply elem_of_app in Hi as [Hi | Hi]; [by apply Hlt |].
    apply list_elem_of_singleton in Hi. subst. by apply Hcue.
  - intros c' Hc'. apply Hcue. congruence.
Qed.

Lemma survivors_sublist (s : Session) : survivors s `sublist_of` world s.
Proof.
  unfold survivors. induction (world s) as [| x w IH]; simpl; [done |].
  destruct (negb _).
  - by apply sublist_skip.
  - by apply sublist_cons.
Qed.

Section Invariant.

Variable ballArea : R.
Variable integrate : gmap nat Body -> list nat -> gmap nat Body.
Variable detect : gmap nat Body -> list nat -> list (nat * nat).
Variable resolve : gmap nat Body -> list nat -> list (nat * nat) -> gmap nat Body.

Lemma resetGame_wellFormed (s : Session) :
  wellFormed s -> wellFormed (resetGame ballArea s).
Proof.
  intros (Hnd & Hlt & Hcue).
  assert (world (resetGame ballArea s) = survivors s ++ seq (nextId s) 22)
    as Hw.
  { unfold resetGame, survivors. cbn [world createBalls].
    unfold addBodies, dynamicBodies. by rewrite removeBodies_filter. }
  assert (nextId (resetGame ballArea s) = (nextId s + 22)%nat) as Hn
    by reflexivity.
  repeat split.
  - rewrite Hw. apply NoDup_app. split; [| split; [| apply NoDup_seq]].
    + eapply sublist_NoDup; [exact Hnd | apply survivors_sublist].
    + intros x Hx Hx'. apply elem_of_seq in Hx'.
      assert (x < nextId s)%nat; [| lia].
      apply Hlt. eapply elem_of_sublist; [exact Hx | apply survivors_sublist].
  - intros i Hi. rewrite Hn. rewrite Hw in Hi.
    apply elem_of_app in Hi as [Hi | Hi].
    + assert (i < nextId s)%nat; [| lia].
      apply Hlt. eapply elem_of_sublist; [exact Hi | apply survivors_sublist].
    + apply elem_of_seq in Hi. lia.
  - intros c Hc. rewrite Hn. injection Hc as <-. lia.
Qed.

Lemma tick_refs (s : Session) :
  nextId (tick integrate detect resolve s) = nextId s /\
  cueBallRef (tick integrate detect resolve s) = cueBallRef s.
Proof.
  unfold tick. rewrite trigger_beforeUpdate, trigger_collisionStart.
  cbn [nextId cueBallRef withBodies].
  match goal with
  | |- context [onCollisionStart ?p ?s0] =>
      destruct (onCollisionStart_refs p s0) as [-> ->]
  end.
  done.
Qed.

(** Every event keeps the session well formed, resets included. *)
Lemma step_wellFormed (s : Session) (e : Event) :
  wellFormed s -> wellFormed (step ballArea integrate detect resolve s e).
Proof.
  intros Hwf. destruct e; simpl.
  - eapply wellFormed_shrink; [apply tick_world_sublist | | | exact Hwf];
      apply tick_refs.
  - eapply wellFormed_shrink; [apply onCollisionStart_world_sublist | | | exact Hwf];
      apply onCollisionStart_refs.
  - eapply wellFormed_shrink; [by rewrite onMouseDown_world | | | exact Hwf];
      apply onMouseDown_refs.
  - eapply wellFormed_shrink; [by rewrite onMouseMove_world | | | exact Hwf];
      apply onMouseMove_refs.
  - eapply wellFormed_shrink; [by rewrite onMouseUp_world | | | exact Hwf];
      apply onMouseUp_refs.
  - exact Hwf.
  - by apply resetCueBall_wellFormed.
  - by apply resetGame_wellFormed.
Qed.

(** X9: the bookkeeping of the world is an invariant of every sequence of
    events, resets included: no body is in the world twice, and the world and
    [cueBallRef] only hold ids that have been handed out. *)
Lemma run_wellFormed (es : list Event) (s : Session) :
  wellFormed s -> wellFormed (run ballArea integrate detect resolve s es).
Proof.
  unfold run. revert s.
  induction es as [| e es IH]; intros s Hwf; simpl; [done |].
  apply IH. by apply step_wellFormed.
Qed.

End Invariant.

Lemma example_wellFormed (cueVel redVel : Vec) :
  wellFormed (exampleSession cueVel redVel).
Proof.
  repeat split.
  - apply example_world_NoDup.
  - intros i Hi. simpl in *.
    repeat (apply elem_of_cons in Hi as [-> | Hi]); try lia.
    by apply elem_of_nil in Hi.
  - intros c [= <-]. simpl. lia.
Qed.

(** * Further properties of the code *)

Lemma off_threshold_example (k : nat) : 3 - INR k * 1 <> 0.15.
Proof.
  intros H. destruct (le_lt_dec k 2) as [Hk | Hk].
  - apply le_INR in Hk. simpl in Hk. lra.
  - assert (3 <= k)%nat as Hk3 by lia. apply le_INR in Hk3. simpl in Hk3. lra.
Qed.

(** A ball at speed 3 with rolling friction 1 is at rest after 3 passes. *)
Lemma friction_stops_off_threshold_witness :
  velocity (Nat.iter 3 (frictionBody 1)
              (exampleBall "cue" (mkVec 300 300) (mkVec 3 0)))
  = mkVec 0 0.
Proof.
  assert (magnitude (mkVec 3 0) = 3) as Hm by (apply magnitude_axis; lra).
  apply (friction_stops_off_threshold 1 3
           (exampleBall "cue" (mkVec 300 300) (mkVec 3 0))).
  - lra.
  - intros k. simpl velocity. rewrite Hm. apply off_threshold_example.
  - simpl velocity. rewrite Hm. simpl. lra.
Defined.

(** ** The friction pass only slows bodies down *)

Lemma slowedFrom_refl (b : Body) : slowedFrom b b.
Proof.
  repeat split; try done. exists 1. split; [lra |].
  destruct (velocity b) as [x y]. simpl. f_equal; lra.
Qed.

Lemma slowedFrom_trans (a b c : Body) :
  slowedFrom a b -> slowedFrom b c -> slowedFrom a c.
Proof.
  intros ((k1 & Hk1 & Hv1) & Hp1 & Hl1 & Hs1 & Hn1 & Hm1 & Hf1)
         ((k2 & Hk2 & Hv2) & Hp2 & Hl2 & Hs2 & Hn2 & Hm2 & Hf2).
  repeat split; try congruence.
  exists (k1 * k2). split; [nra |].
  rewrite Hv2, Hv1. simpl. f_equal; lra.
Qed.

Lemma frictionBody_slows (rf : R) (b : Body) : slowedFrom b (frictionBody rf b).
Proof.
  pose proof (magnitude_nonneg (velocity b)) as H0.
  destruct (Rlt_dec 0 (magnitude (velocity b))) as [Hpos | Hz].
  - destruct (Rlt_dec (magnitude (velocity b)) 0.15) as [Hslow | Hge].
    + rewrite frictionBody_slow by lra. repeat split; try done.
      exists 0. split; [lra |]. simpl. f_equal; lra.
    + destruct (Rlt_dec 0 rf) as [Hrf | Hrf];
        [destruct (Rlt_dec 0.15 (magnitude (velocity b))) as [Hfast | Hnf] |].
      * rewrite frictionBody_roll by lra. repeat split; try done.
        exists (Rmax 0 (magnitude (velocity b) - rf) / magnitude (velocity b)).
        split; [| done]. split.
        -- apply Rmult_le_pos; [apply Rmax_l |].
           apply Rlt_le, Rinv_0_lt_compat. lra.
        -- assert (Rmax 0 (magnitude (velocity b) - rf) <= magnitude (velocity b))
             as Hle by (apply Rmax_lub; lra).
           replace 1 with (magnitude (velocity b) * / magnitude (velocity b))
             by (field; lra).
           apply Rmult_le_compat_r; [| exact Hle].
           apply Rlt_le, Rinv_0_lt_compat. lra.
      * rewrite frictionBody_rest by lra. apply slowedFrom_refl.
      * rewrite frictionBody_rest by lra. apply slowedFrom_refl.
  - rewrite frictionBody_rest by lra. apply slowedFrom_refl.
Qed.

Lemma slowedFrom_speed (b b' : Body) :
  slowedFrom b b' -> magnitude (velocity b') <= magnitude (velocity b).
Proof.
  intros ((k & Hk & Hv) & _). rewrite Hv, magnitude_scaled by lra.
  pose proof (magnitude_nonneg (velocity b)). nra.
Qed.

(** A [forEach] whose callback respects a preorder on bodies respects it on
    every body of the store, however often a body is visited. *)
Lemma forEachBody_preserves (rel : Body -> Body -> Prop) (f : Body -> Body)
    (ids : list nat) (m : gmap nat Body) (i : nat) (b : Body) :
  (forall x, rel x x) -> (forall x y z, rel x y -> rel y z -> rel x z) ->
  (forall x, rel x (f x)) ->
  m !! i = Some b ->
  exists b', forEachBody f ids m !! i = Some b' /\ rel b b'.
Proof.
  intros Hrefl Htrans Hf. unfold forEachBody. revert m b.
  induction ids as [| x ids IH]; intros m b Hb; simpl.
  { exists b. by split. }
  destruct (decide (x = i)) as [-> | Hne].
  - destruct (IH (alter f i m) (f b)) as (b' & Hb' & Hr).
    { by rewrite lookup_alter_eq, Hb. }
    exists b'. split; [done |]. eapply Htrans; [apply Hf | exact Hr].
  - apply IH. by rewrite lookup_alter_ne.
Qed.

(** X2: the friction pass never speeds a body up and never moves it: every
    body of the store comes out with the same position, label, flags, mass and
    pending force and with its velocity scaled by a factor between 0 and 1,
    bodies that are static or sensors come out as they were, and the world
    holds the same bodies. *)
Theorem frictionPass_only_slows (s : Session) (i : nat) (b : Body) :
  bodies s !! i = Some b ->
  exists b', bodies (frictionPass s) !! i = Some b' /\
    slowedFrom b b' /\
    magnitude (velocity b') <= magnitude (velocity b) /\
    (isDynamic b = false -> b' = b) /\
    world (frictionPass s) = world s.
Proof.
  intros Hb.
  destruct (forEachBody_preserves slowedFrom
              (frictionBody (rollingFrictionRef s))
              (dynamicBodies (bodies s) (world s)) (bodies s) i b
              slowedFrom_refl slowedFrom_trans
              (frictionBody_slows (rollingFrictionRef s)) Hb)
    as (b' & Hb' & Hslow).
  exists b'. split; [exact Hb' |]. split; [exact Hslow |].
  split; [by apply slowedFrom_speed |]. split; [| done].
  intros Hd. unfold frictionPass in Hb'. cbn [bodies withBodies] in Hb'.
  rewrite forEachBody_lookup_notin in Hb'; [congruence |].
  intros Hin. apply dynamicBodies_elem in Hin as [_ (b0 & Hb0 & Hd0)].
  congruence.
Qed.

Lemma frictionPass_only_slows_witness :
  exists b',
    bodies (frictionPass (exampleSession (mkVec 0 0) (mkVec 3 0))) !! 2%nat
      = Some b' /\
    magnitude (velocity b') <= magnitude (mkVec 3 0) /\
    position b' = mkVec 600 300.
Proof.
  destruct (frictionPass_only_slows (exampleSession (mkVec 0 0) (mkVec 3 0))
              2%nat (exampleBall "red-7" (mkVec 600 300) (mkVec 3 0)) eq_refl)
    as (b' & Hb' & (_ & Hp & _) & Hv & _).
  exists b'. split; [exact Hb' |]. split; [exact Hv | exact Hp].
Defined.

(** ** The friction pass and the rest gate *)

Lemma frictionPass_lookup_inv (s : Session) (i : nat) (b' : Body) :
  NoDup (world s) -> bodies (frictionPass s) !! i = Some b' ->
  exists b, bodies s !! i = Some b /\
    b' = if bool_decide (i ∈ world s) && isDynamic b
         then frictionBody (rollingFrictionRef s) b else b.
Proof.
  intros Hnd Hb'. destruct (bodies s !! i) as [b |] eqn:Hb.
  - exists b. split; [done |].
    rewrite (frictionPass_lookup s i b Hnd Hb) in Hb'. congruence.
  - unfold frictionPass in Hb'. cbn [bodies withBodies] in Hb'.
    rewrite forEachBody_lookup_notin in Hb'; [congruence |].
    intros Hin. apply dynamicBodies_elem in Hin as [_ (b0 & Hb0 & _)].
    congruence.
Qed.

(** X3: the pass stops below 0.15 while the gate of a new shot asks for less
    than 0.1, and the two fit together: when every non-static, non-sensor
    body of the world is slower than 0.15, one friction pass leaves all of
    them with velocity exactly zero, so [allBallsStopped] holds after it. *)
Theorem frictionPass_opens_gate (s : Session) :
  NoDup (world s) ->
  (forall i b, i ∈ world s -> bodies s !! i = Some b -> isDynamic b = true ->
     magnitude (velocity b) < 0.15) ->
  allBallsStopped (frictionPass s) = true /\
  (forall i b', i ∈ world s -> bodies (frictionPass s) !! i = Some b' ->
     isDynamic b' = true -> velocity b' = mkVec 0 0).
Proof.
  intros Hnd Hslow.
  assert (forall i b', i ∈ world s -> bodies (frictionPass s) !! i = Some b' ->
            isDynamic b' = true -> velocity b' = mkVec 0 0) as Hzero.
  { intros i b' Hi Hb' Hd'.
    destruct (frictionPass_lookup_inv s i b' Hnd Hb') as (b & Hb & ->).
    rewrite bool_decide_eq_true_2 in * by done. simpl in *.
    pose proof (frictionBody_slows (rollingFrictionRef s) b)
      as (_ & _ & _ & Hst & Hse & _).
    assert (isDynamic b = true) as Hd.
    { destruct (isDynamic b) eqn:E; [done |].
      unfold isDynamic in *. congruence. }
    rewrite Hd in *. specialize (Hslow i b Hi Hb Hd).
    pose proof (magnitude_nonneg (velocity b)) as H0.
    destruct (Rlt_dec 0 (magnitude (velocity b))) as [Hpos | Hz].
    - by rewrite frictionBody_slow by lra.
    - rewrite frictionBody_rest by lra. apply magnitude_zero_iff. lra. }
  split; [| exact Hzero].
  apply allBallsStopped_true. intros i b' Hi Hb' Hd'.
  rewrite frictionPass_world in Hi.
  rewrite (proj2 (magnitude_zero_iff _) (Hzero i b' Hi Hb' Hd')). lra.
Qed.

Lemma example_creep_speed : magnitude (mkVec 0.12 0) = 0.12.
Proof. apply magnitude_axis. lra. Qed.

(** A cue ball creeping at 0.12 keeps the gate shut until the next pass. *)
Lemma frictionPass_opens_gate_witness :
  allBallsStopped (exampleSession (mkVec 0.12 0) (mkVec 0 0)) = false /\
  allBallsStopped (frictionPass (exampleSession (mkVec 0.12 0) (mkVec 0 0)))
    = true.
Proof.
  split.
  - apply (allBallsStopped_false _ 1%nat
             (exampleBall "cue" (mkVec 300 300) (mkVec 0.12 0)));
      [apply (bool_decide_unpack _); by compute | reflexivity | reflexivity |].
    simpl velocity. rewrite example_creep_speed. lra.
  - apply (frictionPass_opens_gate (exampleSession (mkVec 0.12 0) (mkVec 0 0))).
    + apply example_world_NoDup.
    + intros i b Hi Hb Hd. simpl in Hi.
      repeat (apply elem_of_cons in Hi as [-> | Hi]);
        [| | | by apply elem_of_nil in Hi]; injection Hb as <-.
      * discriminate Hd.
      * change (magnitude (mkVec 0.12 0) < 0.15).
        rewrite example_creep_speed. lra.
      * change (magnitude (mkVec 0 0) < 0.15).
        rewrite (proj2 (magnitude_zero_iff _) eq_refl). lra.
Defined.

(** ** Dragging: the shot-power display *)

Lemma round_bounds (x : R) (a b : Z) :
  IZR a <= x <= IZR b -> (a <= round x <= b)%Z.
Proof.
  intros [Ha Hb]. unfold round.
  destruct (base_Int_part (x + / 2)) as [Hlo Hhi].
  split.
  - assert (a - 1 < Int_part (x + / 2))%Z; [| lia].
    apply lt_IZR. rewrite minus_IZR. lra.
  - assert (Int_part (x + / 2) < b + 1)%Z; [| lia].
    apply lt_IZR. rewrite plus_IZR. lra.
Qed.

Lemma pullPower_range (from pos : Vec) : 0 <= pullPower from pos <= 300.
Proof.
  unfold pullPower. split.
  - apply Rmin_glb; [apply sqrt_pos | lra].
  - apply Rmin_r.
Qed.

(** X4: while a gesture is in progress, a pointer move shows a whole
    percentage between 0 and 100: it is 100 from a pull of 300 units on, and 0
    for a pull shorter than 1.5 units.  The aiming line runs from the cue ball
    to the pointer, and the move changes neither a body, nor the world, nor
    the gesture itself. *)
Theorem onMouseMove_display (s : Session) (pos start : Vec) (c : nat)
    (cue : Body) :
  isDraggingRef s = true -> dragStartRef s = Some start ->
  cueBallRef s = Some c -> bodies s !! c = Some cue ->
  let dist := magnitude (vsub (position cue) pos) in
  let s' := onMouseMove pos s in
  (0 <= shotPower s' <= 100)%Z /\
  (300 <= dist -> shotPower s' = 100%Z) /\
  (dist < 1.5 -> shotPower s' = 0%Z) /\
  cueLineRef s' = Some (position cue, pos) /\
  bodies s' = bodies s /\ world s' = world s /\
  isDraggingRef s' = true /\ dragStartRef s' = Some start /\
  isAiming s' = isAiming s /\ pottedBalls s' = pottedBalls s /\
  isCueBallPotted s' = isCueBallPotted s.
Proof.
  intros Hdrag Hstart Hc Hcue dist s'.
  assert (s' = withCueLine
                 (withShotPower s
                    (round (pullPower (position cue) pos / 300 * 100)))
                 (Some (position cue, pos))) as ->.
  { unfold s', onMouseMove. rewrite Hdrag, Hstart, Hc, Hcue. simpl.
    by destruct (position cue), pos. }
  cbn [shotPower cueLineRef bodies world isDraggingRef dragStartRef isAiming
       pottedBalls isCueBallPotted withCueLine withShotPower].
  pose proof (pullPower_range (position cue) pos) as Hr.
  assert (pullPower (position cue) pos = Rmin dist 300) as Hp by reflexivity.
  split; [| split; [| split]].
  - apply round_bounds. simpl. lra.
  - intros Hfar. rewrite Hp, Rmin_right by lra.
    assert (100 <= round (300 / 300 * 100) <= 100)%Z; [| lia].
    apply round_bounds. simpl. lra.
  - intros Hnear. rewrite Hp, Rmin_left by lra.
    pose proof (magnitude_nonneg (vsub (position cue) pos)) as H0.
    fold dist in H0.
    unfold round. destruct (base_Int_part (dist / 300 * 100 + / 2)) as [Hlo Hhi].
    assert (-1 < Int_part (dist / 300 * 100 + / 2) < 1)%Z; [| lia].
    split; apply lt_IZR; simpl; lra.
  - by rewrite Hdrag, Hstart.
Qed.

Lemma example_full_pull :
  magnitude (vsub (mkVec 300 300) (mkVec (-100) 300)) = 400.
Proof.
  unfold magnitude. simpl.
  replace ((300 - -100) * (300 - -100) + (300 - 300) * (300 - 300))
    with (400 * 400) by lra.
  apply sqrt_square. lra.
Qed.

(** Pulling 400 units back shows full power. *)
Lemma onMouseMove_display_witness :
  shotPower (onMouseMove (mkVec (-100) 300) exampleAiming) = 100%Z /\
  cueLineRef (onMouseMove (mkVec (-100) 300) exampleAiming)
    = Some (mkVec 300 300, mkVec (-100) 300).
Proof.
  destruct (onMouseMove_display exampleAiming (mkVec (-100) 300)
              (mkVec 300 300) 1%nat
              (exampleBall "cue" (mkVec 300 300) (mkVec 0 0))
              eq_refl eq_refl eq_refl eq_refl)
    as (_ & Hfull & _ & Hline & _).
  split; [| exact Hline].
  apply Hfull. simpl position. rewrite example_full_pull. lra.
Defined.

(** ** A gesture that is taken back *)

Lemma onMouseDown_starts (s : Session) (pos : Vec) (c : nat) (cue : Body) :
  cueBallRef s = Some c -> bodies s !! c = Some cue ->
  allAtRest s -> magnitude (vsub pos (position cue)) < 40 ->
  onMouseDown pos s = withGesture s true (Some (position cue)) true.
Proof.
  intros Hc Hcue Hrest Hnear. unfold onMouseDown.
  rewrite (proj2 (allBallsStopped_true s) Hrest), Hc, Hcue. simpl.
  rewrite (proj2 (Rltb_true _ _)) by (unfold BALL_R; lra).
  by destruct (position cue).
Qed.

Lemma moves_keep_aiming (moves : list Vec) (s : Session) (o : Vec) (p : Z)
    (l : option (Vec * Vec)) :
  exists p' l',
    fold_left (fun s pos => onMouseMove pos s) moves
      (withCueLine (withShotPower (withGesture s true (Some o) true) p) l)
    = withCueLine (withShotPower (withGesture s true (Some o) true) p') l'.
Proof.
  revert p l. induction moves as [| pos moves IH]; intros p l; simpl.
  { by exists p, l. }
  unfold onMouseMove at 2. cbn [isDraggingRef dragStartRef cueBallRef bodies
    withCueLine withShotPower withGesture negb].
  destruct (cueBallRef s) as [c |]; [| apply IH].
  destruct (bodies s !! c) as [cue |]; [| apply IH].
  destruct (IH (round (pullPower (position cue) pos / 300 * 100))
              (Some (mkVec (vx (position cue)) (vy (position cue)),
                     mkVec (vx pos) (vy pos)))) as (p' & l' & Heq).
  exists p', l'. etrans; [| exact Heq]. reflexivity.
Qed.

(** X5: a gesture that ends within 5 units of the cue ball is taken back
    completely: from a state with no gesture in progress, a press within 40
    units of the cue ball with all balls at rest, any pointer moves, and a
    release at most 5 units from the cue ball give back exactly the state
    before the press. *)
Theorem gesture_released_close_is_undone (s : Session) (press release : Vec)
    (moves : list Vec) (c : nat) (cue : Body) :
  idle s -> cueBallRef s = Some c -> bodies s !! c = Some cue ->
  allAtRest s ->
  magnitude (vsub press (position cue)) < 40 ->
  magnitude (vsub (position cue) release) <= 5 ->
  onMouseUp release
    (fold_left (fun s pos => onMouseMove pos s) moves (onMouseDown press s))
  = s.
Proof.
  intros (Hd & Hst & Hl & Ha & Hp) Hc Hcue Hrest Hnear Hclose.
  rewrite (onMouseDown_starts s press c cue Hc Hcue Hrest Hnear).
  assert (withGesture s true (Some (position cue)) true
          = withCueLine
              (withShotPower (withGesture s true (Some (position cue)) true)
                 (shotPower s)) (cueLineRef s)) as -> by reflexivity.
  destruct (moves_keep_aiming moves s (position cue) (shotPower s)
              (cueLineRef s)) as (p' & l' & ->).
  unfold onMouseUp. cbn [isDraggingRef dragStartRef cueBallRef bodies
    withCueLine withShotPower withGesture negb].
  rewrite Hc, Hcue.
  assert (Rgtb (pullPower (position cue) release) 5 = false) as ->.
  { apply Rgtb_false.
    pose proof (pullPower_le_dist (position cue) release). lra. }
  destruct s. simpl in *. by subst.
Qed.

Lemma example_release_distance :
  magnitude (vsub (mkVec 300 300) (mkVec 303 300)) = 3.
Proof.
  unfold magnitude. simpl.
  replace ((300 - 303) * (300 - 303) + (300 - 300) * (300 - 300))
    with (3 * 3) by lra.
  apply sqrt_square. lra.
Qed.

Lemma gesture_released_close_is_undone_witness :
  onMouseUp (mkVec 303 300)
    (fold_left (fun s pos => onMouseMove pos s)
       [mkVec 250 300; mkVec 303 300]
       (onMouseDown (mkVec 305 300) (exampleSession (mkVec 0 0) (mkVec 0 0))))
  = exampleSession (mkVec 0 0) (mkVec 0 0).
Proof.
  apply (gesture_released_close_is_undone
           (exampleSession (mkVec 0 0) (mkVec 0 0))
           (mkVec 305 300) (mkVec 303 300) [mkVec 250 300; mkVec 303 300]
           1%nat (exampleBall "cue" (mkVec 300 300) (mkVec 0 0))).
  - by repeat split.
  - reflexivity.
  - reflexivity.
  - apply example_allAtRest.
  - simpl position. rewrite example_press_distance. lra.
  - simpl position. rewrite example_release_distance. lra.
Defined.

(** ** What the pocket handler never does *)

(** The handler either leaves the state alone or pots one non-static body of
    the pair. *)
Lemma pocketPair_cases (s : Session) (pair : nat * nat) :
  pocketPair s pair = s \/
  exists i ball,
    (i = pair.1 \/ i = pair.2) /\ bodies s !! i = Some ball /\
    isStatic ball = false /\
    ((label ball = "cue"%string /\
      pocketPair s pair
        = withCueBallPotted (withWorld s (removeBody i (world s))) true) \/
     (label ball <> "cue"%string /\
      pocketPair s pair
        = withPottedBalls (withWorld s (removeBody i (world s)))
            (pottedBalls s ++ [label ball]))).
Proof.
  unfold pocketPair.
  destruct (bodies s !! pair.1) as [bodyA |] eqn:HA; [| by left].
  destruct (bodies s !! pair.2) as [bodyB |] eqn:HB; [| by left].
  destruct (isPocketLabel (label bodyA)).
  - destruct (isStatic bodyB) eqn:Hst; [by left |]. right.
    exists pair.2, bodyB. split; [by right |]. split; [done |]. split; [done |].
    destruct (String.eqb (label bodyB) "cue") eqn:E.
    + left. by apply String.eqb_eq in E.
    + right. by apply String.eqb_neq in E.
  - destruct (isPocketLabel (label bodyB)); [| by left].
    destruct (isStatic bodyA) eqn:Hst; [by left |]. right.
    exists pair.1, bodyA. split; [by left |]. split; [done |]. split; [done |].
    destruct (String.eqb (label bodyA) "cue") eqn:E.
    + left. by apply String.eqb_eq in E.
    + right. by apply String.eqb_neq in E.
Qed.

Lemma pocketPair_keeps (s : Session) (pair : nat * nat) :
  bodies (pocketPair s pair) = bodies s /\
  (forall i b, i ∈ world s -> bodies s !! i = Some b -> isStatic b = true ->
     i ∈ world (pocketPair s pair)) /\
  (forall i, i ∈ world s -> pair.1 <> i -> pair.2 <> i ->
     i ∈ world (pocketPair s pair)) /\
  rollingFrictionRef (pocketPair s pair) = rollingFrictionRef s /\
  isDraggingRef (pocketPair s pair) = isDraggingRef s /\
  dragStartRef (pocketPair s pair) = dragStartRef s /\
  isAiming (pocketPair s pair) = isAiming s.
Proof.
  destruct (pocketPair_cases s pair)
    as [-> | (j & ball & Hj & Hball & Hns & [[_ ->] | [_ ->]])];
    try done; (split; [done |]); (split; [| split; [| done]]);
    cbn [world withWorld withCueBallPotted withPottedBalls].
  - intros i b Hi Hb Hst. apply removeBody_other; [| done].
    intros ->. congruence.
  - intros i Hi H1 H2. apply removeBody_other; [| done].
    destruct Hj; congruence.
  - intros i b Hi Hb Hst. apply removeBody_other; [| done].
    intros ->. congruence.
  - intros i Hi H1 H2. apply removeBody_other; [| done].
    destruct Hj; congruence.
Qed.

(** X6: handling a [collisionStart] event, whatever pairs it reports, never
    modifies a body object, never takes a static body (rail, cushion, pocket)
    out of the world, never takes out a body that is in none of the pairs, and
    leaves the gesture and the rolling-friction value alone. *)
Theorem onCollisionStart_never (pairs : list (nat * nat)) (s : Session) :
  let s' := onCollisionStart pairs s in
  bodies s' = bodies s /\
  (forall i b, i ∈ world s -> bodies s !! i = Some b -> isStatic b = true ->
     i ∈ world s') /\
  (forall i, i ∈ world s ->
     (forall pair, pair ∈ pairs -> pair.1 <> i /\ pair.2 <> i) ->
     i ∈ world s') /\
  rollingFrictionRef s' = rollingFrictionRef s /\
  isDraggingRef s' = isDraggingRef s /\
  dragStartRef s' = dragStartRef s /\
  isAiming s' = isAiming s.
Proof.
  unfold onCollisionStart. revert s.
  induction pairs as [| pair pairs IH]; intros s; simpl; [done |].
  destruct (IH (pocketPair s pair)) as (Hb & Hst & Hout & Hrf & Hd & Hds & Ha).
  destruct (pocketPair_keeps s pair)
    as (Hb1 & Hst1 & Hout1 & Hrf1 & Hd1 & Hds1 & Ha1).
  repeat split; try congruence.
  - intros i b Hi Hbi Hs. apply (Hst i b); [by eapply Hst1 | | done].
    by rewrite Hb1.
  - intros i Hi Hno. apply Hout.
    + destruct (Hno pair) as [H1 H2]; [apply elem_of_cons; by left |].
      by apply Hout1.
    + intros pr Hpr. apply Hno. apply elem_of_cons. by right.
Qed.

(** The pocket stays when "red-7" falls into it, and the cue ball, which is
    in no pair, stays too. *)
Lemma onCollisionStart_never_witness :
  0%nat ∈ world (onCollisionStart [(0%nat, 2%nat); (2%nat, 0%nat)]
                   (exampleSession (mkVec 0 0) (mkVec 2 0))) /\
  1%nat ∈ world (onCollisionStart [(0%nat, 2%nat); (2%nat, 0%nat)]
                   (exampleSession (mkVec 0 0) (mkVec 2 0))).
Proof.
  destruct (onCollisionStart_never [(0%nat, 2%nat); (2%nat, 0%nat)]
              (exampleSession (mkVec 0 0) (mkVec 2 0)))
    as (_ & Hst & Hout & _).
  split.
  - apply (Hst 0%nat examplePocket);
      [apply (bool_decide_unpack _); by compute | reflexivity | reflexivity].
  - apply Hout; [apply (bool_decide_unpack _); by compute |].
    intros pair Hp.
    repeat (apply elem_of_cons in Hp as [-> | Hp]);
      [by split | by split | by apply elem_of_nil in Hp].
Defined.

(** ** What the pointer handlers leave alone *)

Lemma onMouseDown_frame (pos : Vec) (s : Session) :
  bodies (onMouseDown pos s) = bodies s /\
  pottedBalls (onMouseDown pos s) = pottedBalls s /\
  isCueBallPotted (onMouseDown pos s) = isCueBallPotted s /\
  rollingFrictionRef (onMouseDown pos s) = rollingFrictionRef s.
Proof.
  unfold onMouseDown. destruct (negb _); [done |].
  destruct (cueBallRef s) as [c |]; [| done].
  destruct (bodies s !! c); [| done]. by destruct (Rltb _ _).
Qed.

Lemma onMouseMove_frame (pos : Vec) (s : Session) :
  bodies (onMouseMove pos s) = bodies s /\
  pottedBalls (onMouseMove pos s) = pottedBalls s /\
  isCueBallPotted (onMouseMove pos s) = isCueBallPotted s /\
  rollingFrictionRef (onMouseMove pos s) = rollingFrictionRef s.
Proof.
  unfold onMouseMove. destruct (negb _); [done |].
  destruct (dragStartRef s); [| done].
  destruct (cueBallRef s) as [c |]; [| done].
  by destruct (bodies s !! c).
Qed.

Lemma onMouseUp_frame (pos : Vec) (s : Session) :
  (forall j, cueBallRef s <> Some j ->
     bodies (onMouseUp pos s) !! j = bodies s !! j) /\
  pottedBalls (onMouseUp pos s) = pottedBalls s /\
  isCueBallPotted (onMouseUp pos s) = isCueBallPotted s /\
  rollingFrictionRef (onMouseUp pos s) = rollingFrictionRef s.
Proof.
  unfold onMouseUp. destruct (negb _); [done |].
  destruct (dragStartRef s); [| done].
  destruct (cueBallRef s) as [c |]; [| done].
  destruct (bodies s !! c) as [cue |]; [| done].
  destruct (Rgtb _ _); [| done].
  split; [| done]. intros j Hj.
  cbn [bodies withShotPower withCueLine withGesture withLastForce withBodies].
  apply lookup_insert_ne. congruence.
Qed.

Section History.

Variable ballArea : R.
Variable integrate : gmap nat Body -> list nat -> gmap nat Body.
Variable detect : gmap nat Body -> list nat -> list (nat * nat).
Variable resolve : gmap nat Body -> list nat -> list (nat * nat) -> gmap nat Body.

(** X7: the pointer handlers never change the world, the potted sequence,
    the cue-ball-in-hand flag or the rolling-friction value, and the only body
    object they can change is the cue ball (and only a release does); a
    release or a move with no gesture in progress changes nothing at all. *)
Theorem pointer_events_frame (s : Session) (e : Event) :
  isPointerEvent e = true ->
  let s' := step ballArea integrate detect resolve s e in
  world s' = world s /\
  pottedBalls s' = pottedBalls s /\
  isCueBallPotted s' = isCueBallPotted s /\
  rollingFrictionRef s' = rollingFrictionRef s /\
  nextId s' = nextId s /\ cueBallRef s' = cueBallRef s /\
  (forall j, cueBallRef s <> Some j -> bodies s' !! j = bodies s !! j) /\
  ((forall pos, e <> MouseUp pos) -> bodies s' = bodies s) /\
  (isDraggingRef s = false -> (forall pos, e <> MouseDown pos) -> s' = s).
Proof.
  destruct e as [| | pos | pos | pos | | |]; intros He; try discriminate;
    simpl.
  - destruct (onMouseDown_frame pos s) as (Hb & Hp & Hf & Hrf).
    destruct (onMouseDown_refs pos s) as [Hn Hc].
    rewrite onMouseDown_world, Hb.
    repeat split; try done. intros _ Hno. by destruct (Hno pos).
  - destruct (onMouseMove_frame pos s) as (Hb & Hp & Hf & Hrf).
    destruct (onMouseMove_refs pos s) as [Hn Hc].
    rewrite onMouseMove_world, Hb.
    repeat split; try done. intros Hidle _. unfold onMouseMove.
    by rewrite Hidle.
  - destruct (onMouseUp_frame pos s) as (Hb & Hp & Hf & Hrf).
    destruct (onMouseUp_refs pos s) as [Hn Hc].
    rewrite onMouseUp_world.
    repeat split; try done.
    + intros Hno. by destruct (Hno pos).
    + intros Hidle _. unfold onMouseUp. by rewrite Hidle.
Qed.

End History.

(** A release with no gesture in progress is ignored. *)
Lemma pointer_events_frame_witness :
  step exampleArea eulerIntegrate noPairs noResolve
    (exampleSession (mkVec 0 0) (mkVec 0 0)) (MouseUp (mkVec 200 300))
  = exampleSession (mkVec 0 0) (mkVec 0 0).
Proof.
  destruct (pointer_events_frame exampleArea eulerIntegrate noPairs noResolve
              (exampleSession (mkVec 0 0) (mkVec 0 0))
              (MouseUp (mkVec 200 300)) eq_refl)
    as (_ & _ & _ & _ & _ & _ & _ & _ & Hidle).
  apply Hidle; [reflexivity | discriminate].
Defined.

(** ** The potted sequence is a history *)

Lemma pocketPair_history (s : Session) (pair : nat * nat) :
  exists added,
    pottedBalls (pocketPair s pair) = pottedBalls s ++ added /\
    ("cue"%string ∉ added) /\
    (isCueBallPotted s = true -> isCueBallPotted (pocketPair s pair) = true).
Proof.
  destruct (pocketPair_cases s pair)
    as [-> | (j & ball & _ & _ & _ & [[_ ->] | [Hl ->]])].
  - exists []. rewrite app_nil_r. repeat split; [apply not_elem_of_nil | done].
  - exists []. rewrite app_nil_r. repeat split; apply not_elem_of_nil.
  - exists [label ball]. repeat split; [| done].
    intros Hin. apply list_elem_of_singleton in Hin. congruence.
Qed.

Lemma onCollisionStart_history (pairs : list (nat * nat)) (s : Session) :
  exists added,
    pottedBalls (onCollisionStart pairs s) = pottedBalls s ++ added /\
    ("cue"%string ∉ added) /\
    (isCueBallPotted s = true ->
       isCueBallPotted (onCollisionStart pairs s) = true).
Proof.
  unfold onCollisionStart. revert s.
  induction pairs as [| pair pairs IH]; intros s; simpl.
  { exists []. rewrite app_nil_r. repeat split; [apply not_elem_of_nil | done]. }
  destruct (pocketPair_history s pair) as (a1 & H1 & Hc1 & Hf1).
  destruct (IH (pocketPair s pair)) as (a2 & H2 & Hc2 & Hf2).
  exists (a1 ++ a2). rewrite H2, H1, app_assoc. repeat split; [| auto].
  intros Hin. apply elem_of_app in Hin as [Hin | Hin]; contradiction.
Qed.

Section Potted.

Variable ballArea : R.
Variable integrate : gmap nat Body -> list nat -> gmap nat Body.
Variable detect : gmap nat Body -> list nat -> list (nat * nat).
Variable resolve : gmap nat Body -> list nat -> list (nat * nat) -> gmap nat Body.

Lemma step_history (s : Session) (e : Event) :
  isResetGame e = false ->
  exists added,
    pottedBalls (step ballArea integrate detect resolve s e)
      = pottedBalls s ++ added /\
    "cue"%string ∉ added.
Proof.
  assert (forall s' : Session, pottedBalls s' = pottedBalls s ->
            exists added, pottedBalls s' = pottedBalls s ++ added /\
                          "cue"%string ∉ added) as Hsame.
  { intros s' ->. exists []. rewrite app_nil_r. split; [done |].
    apply not_elem_of_nil. }
  destruct e as [| pairs | pos | pos | pos | fAir rf dn | |]; intros He;
    try discriminate; simpl.
  - unfold tick. rewrite trigger_beforeUpdate, trigger_collisionStart.
    cbn [pottedBalls withBodies].
    match goal with
    | |- context [onCollisionStart ?p ?s0] =>
        destruct (onCollisionStart_history p s0) as (added & Ha & Hc & _)
    end.
    exists added. by split.
  - destruct (onCollisionStart_history pairs s) as (added & Ha & Hc & _).
    exists added. by split.
  - apply Hsame. apply onMouseDown_frame.
  - apply Hsame. apply onMouseMove_frame.
  - apply Hsame. apply onMouseUp_frame.
  - by apply Hsame.
  - apply Hsame. unfold resetCueBall.
    destruct (cueBallRef s) as [c |]; [| done].
    cbn zeta. by destruct (inWorld _ _).
Qed.

(** X8: as long as the game is not reset with [resetGame], the potted
    sequence is only ever extended at its end, by ticks, pocket events, pointer
    events, physics settings and [resetCueBall] alike, and the label "cue" is
    never among the entries that are added. *)
Theorem potted_history_grows (s : Session) (es : list Event) :
  Forall (fun e => isResetGame e = false) es ->
  exists added,
    pottedBalls (run ballArea integrate detect resolve s es)
      = pottedBalls s ++ added /\
    "cue"%string ∉ added.
Proof.
  unfold run. revert s.
  induction es as [| e es IH]; intros s Hes; simpl.
  { exists []. rewrite app_nil_r. split; [done | apply not_elem_of_nil]. }
  apply Forall_cons in Hes as [He Hes].
  destruct (step_history s e He) as (a1 & H1 & Hc1).
  destruct (IH (step ballArea integrate detect resolve s e) Hes)
    as (a2 & H2 & Hc2).
  exists (a1 ++ a2). rewrite H2, H1, app_assoc. split; [done |].
  intros Hin. apply elem_of_app in Hin as [Hin | Hin]; contradiction.
Qed.

End Potted.

(** Potting the red, then the cue ball, then resetting the cue ball. *)
Lemma potted_history_grows_witness :
  exists added,
    pottedBalls (run exampleArea eulerIntegrate noPairs noResolve
                   (exampleSession (mkVec 1 0) (mkVec 2 0))
                   [CollisionStart [(0%nat, 2%nat)]; Tick;
                    CollisionStart [(1%nat, 0%nat)]; ResetCueBall])
      = [] ++ added /\
    "cue"%string ∉ added.
Proof.
  apply (potted_history_grows exampleArea eulerIntegrate noPairs noResolve
           (exampleSession (mkVec 1 0) (mkVec 2 0))).
  repeat constructor.
Defined.

Lemma run_wellFormed_witness :
  wellFormed
    (run exampleArea eulerIntegrate noPairs noResolve
       (exampleSession (mkVec 1 0) (mkVec 2 0))
       [Tick; CollisionStart [(0%nat, 1%nat)]; ResetCueBall; ResetGame;
        MouseDown (mkVec 345 340); ResetCueBall; ResetGame]).
Proof.
  apply (run_wellFormed exampleArea eulerIntegrate noPairs noResolve).
  apply example_wellFormed.
Defined.

(** ** [resetGame] and what comes after it *)

Section AfterReset.

Variable ballArea : R.

Lemma resetGame_world (s : Session) :
  world (resetGame ballArea s) = survivors s ++ seq (nextId s) 22.
Proof.
  unfold resetGame, survivors. cbn [world createBalls].
  unfold addBodies, dynamicBodies. by rewrite removeBodies_filter.
Qed.

Lemma resetGame_lookup_old (s : Session) (i : nat) :
  (i < nextId s)%nat -> bodies (resetGame ballArea s) !! i = bodies s !! i.
Proof.
  intros Hi. unfold resetGame. cbn [bodies createBalls].
  by apply allocBodies_lookup_old.
Qed.

Lemma resetGame_lookup_new (s : Session) (k : nat) (b : Body) :
  rack ballArea !! k = Some b ->
  bodies (resetGame ballArea s) !! (nextId s + k)%nat = Some b.
Proof.
  intros Hk. unfold resetGame. cbn [bodies createBalls].
  by apply allocBodies_lookup_new.
Qed.

Lemma survivors_elem (s : Session) (i : nat) :
  i ∈ survivors s ->
  i ∈ world s /\
  match bodies s !! i with Some b => isDynamic b | None => false end = false.
Proof.
  intros Hi. unfold survivors in Hi.
  apply list_elem_of_In, filter_In in Hi as [Hi Hd].
  split; [by apply list_elem_of_In | by apply negb_true_iff].
Qed.

Lemma new_ids_in_rack (s : Session) (x : nat) :
  x ∈ seq (nextId s) 22 ->
  exists k b, x = (nextId s + k)%nat /\ rack ballArea !! k = Some b.
Proof.
  intros Hx. apply elem_of_seq in Hx.
  destruct (rack ballArea !! (x - nextId s)%nat) as [b |] eqn:Hb.
  - exists (x - nextId s)%nat, b. split; [lia | done].
  - apply lookup_ge_None in Hb. rewrite rack_length in Hb. lia.
Qed.

Lemma resetGame_dynamic (s : Session) :
  (forall i, i ∈ world s -> (i < nextId s)%nat) ->
  dynamicBodies (bodies (resetGame ballArea s)) (world (resetGame ballArea s))
    = seq (nextId s) 22.
Proof.
  intros Hfresh. rewrite resetGame_world. unfold dynamicBodies.
  rewrite List.filter_app, filter_none, filter_all; [done | |].
  - intros x Hx. apply new_ids_in_rack in Hx as (k & b & -> & Hb).
    rewrite (resetGame_lookup_new s k b Hb). by eapply rack_dynamic.
  - intros x Hx. apply survivors_elem in Hx as [Hx Hf].
    rewrite resetGame_lookup_old by by apply Hfresh. done.
Qed.

Lemma rack_at_rest (k : nat) (b : Body) :
  rack ballArea !! k = Some b ->
  velocity b = mkVec 0 0 /\ angularVelocity b = 0 /\ force b = mkVec 0 0 /\
  frictionAir b = 0.018 /\ density b = 0.005 /\ mass b = 0.005 * ballArea /\
  restitution b = 0.85 /\ friction b = 0.05.
Proof.
  intros Hk.
  assert (Forall (fun b => velocity b = mkVec 0 0 /\ angularVelocity b = 0 /\
                           force b = mkVec 0 0 /\
                           frictionAir b = 0.018 /\ density b = 0.005 /\
                           mass b = 0.005 * ballArea /\
                           restitution b = 0.85 /\ friction b = 0.05)
            (rack ballArea)) as Hall
    by (unfold rack; simpl; repeat constructor).
  rewrite Forall_lookup in Hall. by eapply Hall.
Qed.


End AfterReset.

Lemma example_fresh (cueVel redVel : Vec) (i : nat) :
  i ∈ world (exampleSession cueVel redVel) ->
  (i < nextId (exampleSession cueVel redVel))%nat.
Proof. apply example_wellFormed. Qed.


Section RackAgain.

Variable ballArea : R.

(** X11: [resetGame] does not look at the physics settings: after
    [applyPhysicsSettings fAir rf dn] and then [resetGame], every ball of the
    new rack has the default air drag 0.018, density 0.005 and mass
    [0.005 * area] again, whatever [fAir] and [dn] were, while the
    rolling-friction value stays [rf]. *)
Theorem resetGame_forgets_settings (fAir rf dn : R) (s : Session) (k : nat)
    (b : Body) :
  rack ballArea !! k = Some b ->
  let s' := resetGame ballArea (applyPhysicsSettings fAir rf dn s) in
  bodies s' !! (nextId s + k)%nat = Some b /\
  (nextId s + k)%nat ∈ world s' /\
  frictionAir b = 0.018 /\ density b = 0.005 /\ mass b = 0.005 * ballArea /\
  rollingFrictionRef s' = rf.
Proof.
  intros Hk s'.
  destruct (rack_at_rest ballArea k b Hk) as (_ & _ & _ & Hf & Hd & Hm & _).
  split; [| split; [| done]].
  - apply (resetGame_lookup_new ballArea (applyPhysicsSettings fAir rf dn s)
             k b Hk).
  - unfold s'. rewrite resetGame_world. apply elem_of_app. right.
    apply elem_of_seq. apply lookup_lt_Some in Hk. rewrite rack_length in Hk.
    cbn [nextId applyPhysicsSettings withBodies withRollingFriction]. lia.
Qed.

Lemma survivors_resetGame (s : Session) :
  (forall i, i ∈ world s -> (i < nextId s)%nat) ->
  survivors (resetGame ballArea s) = survivors s.
Proof.
  intros Hfresh. unfold survivors at 1. rewrite resetGame_world.
  rewrite List.filter_app, filter_all, filter_none; [by rewrite app_nil_r | |].
  - intros x Hx. apply (new_ids_in_rack ballArea) in Hx as (k & b & -> & Hb).
    rewrite (resetGame_lookup_new ballArea s k b Hb).
    by rewrite (rack_dynamic ballArea k b Hb).
  - intros x Hx. apply survivors_elem in Hx as [Hx Hf].
    rewrite resetGame_lookup_old by by apply Hfresh. by rewrite Hf.
Qed.

(** X12: resetting the game again does not pile balls up: the world after two
    [resetGame] calls is the same static bodies and sensors followed by the 22
    balls of the second rack only, so it has as many bodies as after one
    call. *)
Theorem resetGame_twice (s : Session) :
  (forall i, i ∈ world s -> (i < nextId s)%nat) ->
  world (resetGame ballArea (resetGame ballArea s))
    = survivors s ++ seq (nextId s + 22) 22 /\
  length (world (resetGame ballArea (resetGame ballArea s)))
    = length (world (resetGame ballArea s)) /\
  (forall i, i ∈ seq (nextId s) 22 ->
     i ∉ world (resetGame ballArea (resetGame ballArea s))).
Proof.
  intros Hfresh.
  assert (world (resetGame ballArea (resetGame ballArea s))
          = survivors s ++ seq (nextId s + 22) 22) as Hw.
  { rewrite resetGame_world, survivors_resetGame by done. done. }
  split; [exact Hw |]. split.
  - rewrite Hw, resetGame_world, !length_app, !length_seq. done.
  - intros i Hi Hin. rewrite Hw in Hin. apply elem_of_seq in Hi.
    apply elem_of_app in Hin as [Hin | Hin].
    + apply survivors_elem in Hin as [Hin _]. apply Hfresh in Hin. lia.
    + apply elem_of_seq in Hin. lia.
Qed.

End RackAgain.

Lemma resetGame_forgets_settings_witness :
  (frictionAir <$>
     bodies (resetGame exampleArea
               (applyPhysicsSettings 0.06 0.003 0.02
                  (exampleSession (mkVec 1 0) (mkVec 0 2)))) !! 3%nat)
    = Some 0.018 /\
  rollingFrictionRef
    (resetGame exampleArea
       (applyPhysicsSettings 0.06 0.003 0.02
          (exampleSession (mkVec 1 0) (mkVec 0 2)))) = 0.003.
Proof.
  destruct (resetGame_forgets_settings exampleArea 0.06 0.003 0.02
              (exampleSession (mkVec 1 0) (mkVec 0 2)) 0%nat _ eq_refl)
    as (Hb & _ & Hf & _ & _ & Hrf).
  split; [| exact Hrf].
  change (3%nat) with (nextId (exampleSession (mkVec 1 0) (mkVec 0 2)) + 0)%nat.
  by rewrite Hb.
Defined.

Lemma resetGame_twice_witness :
  world (resetGame exampleArea
           (resetGame exampleArea (exampleSession (mkVec 1 0) (mkVec 0 2))))
  = [0%nat] ++ seq 25 22.
Proof.
  destruct (resetGame_twice exampleArea
              (exampleSession (mkVec 1 0) (mkVec 0 2))) as (Hw & _).
  - apply example_fresh.
  - rewrite Hw. reflexivity.
Defined.

(** ** The cue ball while it is out of the world *)

Lemma applyPhysicsSettings_lookup_out (fAir rf dn : R) (s : Session) (i : nat) :
  i ∉ world s ->
  bodies (applyPhysicsSettings fAir rf dn s) !! i = bodies s !! i.
Proof.
  intros Hi. unfold applyPhysicsSettings.
  cbn [bodies world withBodies withRollingFriction].
  rewrite forEachBody_lookup_notin; [done |].
  intros Hin. by apply dynamicBodies_elem in Hin as [? _].
Qed.

Lemma resetCueBall_absent (s : Session) (c : nat) (cue : Body) :
  cueBallRef s = Some c -> bodies s !! c = Some cue -> c ∉ world s ->
  world (resetCueBall s) = world s ++ [c] /\
  bodies (resetCueBall s) !! c
    = Some (setAngularVelocity
              (setVelocity (setPosition cue (mkVec 340 340)) (mkVec 0 0)) 0) /\
  rollingFrictionRef (resetCueBall s) = rollingFrictionRef s.
Proof.
  intros Hc Hcue Hout. apply inWorld_false in Hout.
  unfold resetCueBall. rewrite Hc. cbn zeta. cbn [world withBodies].
  rewrite Hout.
  cbn [world bodies rollingFrictionRef withCueBallPotted withWorld withBodies].
  rewrite lookup_alter_eq, Hcue. simpl. by rewrite cueSpot_value.
Qed.

(** X13: physics settings applied while the cue ball is potted do not reach
    it: [applyPhysicsSettings] walks the world only, so after a following
    [resetCueBall] the cue ball is back in the world with the air drag,
    density and mass it had before, while the rolling-friction value is the
    new one. *)
Theorem settings_miss_potted_cue_ball (fAir rf dn : R) (s : Session) (c : nat)
    (cue : Body) :
  cueBallRef s = Some c -> bodies s !! c = Some cue -> c ∉ world s ->
  let s' := resetCueBall (applyPhysicsSettings fAir rf dn s) in
  world s' = world s ++ [c] /\
  (exists cue', bodies s' !! c = Some cue' /\
     frictionAir cue' = frictionAir cue /\ density cue' = density cue /\
     mass cue' = mass cue /\ position cue' = mkVec 340 340) /\
  rollingFrictionRef s' = rf.
Proof.
  intros Hc Hcue Hout s'.
  destruct (resetCueBall_absent (applyPhysicsSettings fAir rf dn s) c cue)
    as (Hw & Hb & Hrf); [done | | done |].
  { by rewrite applyPhysicsSettings_lookup_out. }
  split; [exact Hw |]. split; [| exact Hrf].
  eexists. split; [exact Hb |]. done.
Qed.

Lemma example_potted_cue :
  1%nat ∉ world (pocketPair (exampleSession (mkVec 1 0) (mkVec 0 0))
                   (0%nat, 1%nat)).
Proof. apply (bool_decide_unpack _). by compute. Qed.

Lemma settings_miss_potted_cue_ball_witness :
  exists cue',
    bodies (resetCueBall
              (applyPhysicsSettings 0.06 0.003 0.02
                 (pocketPair (exampleSession (mkVec 1 0) (mkVec 0 0))
                    (0%nat, 1%nat)))) !! 1%nat = Some cue' /\
    frictionAir cue' = DEFAULTS_frictionAir /\
    mass cue' = DEFAULTS_density * exampleArea.
Proof.
  destruct (settings_miss_potted_cue_ball 0.06 0.003 0.02
              (pocketPair (exampleSession (mkVec 1 0) (mkVec 0 0))
                 (0%nat, 1%nat))
              1%nat (exampleBall "cue" (mkVec 300 300) (mkVec 1 0))
              eq_refl eq_refl example_potted_cue)
    as (_ & (cue' & Hb & Hf & _ & Hm & _) & _).
  exists cue'. split; [exact Hb |]. split; [exact Hf | exact Hm].
Defined.

(** X14: [resetCueBall] clears the velocity but not the force a shot has put
    on the cue ball.  A gesture can be started and released on a potted cue
    ball (the gate does not look at the flag), and after the following
    [resetCueBall] the ball is in the world at the cue spot, at rest, with the
    force of that shot still pending on it. *)
Theorem shot_on_potted_cue_ball_survives_reset (s : Session)
    (press release : Vec) (c : nat) (cue : Body) :
  cueBallRef s = Some c -> bodies s !! c = Some cue -> c ∉ world s ->
  allAtRest s ->
  magnitude (vsub press (position cue)) < 40 ->
  pullPower (position cue) release > 5 ->
  let s' := resetCueBall (onMouseUp release (onMouseDown press s)) in
  (c ∈ world s') /\
  exists cue',
    bodies s' !! c = Some cue' /\
    position cue' = mkVec 340 340 /\ velocity cue' = mkVec 0 0 /\
    force cue' = mkVec (vx (force cue) + vx (shotForce (position cue) release))
                       (vy (force cue) + vy (shotForce (position cue) release)) /\
    magnitude (shotForce (position cue) release)
      = pullPower (position cue) release / 300 * 0.08.
Proof.
  intros Hc Hcue Hout Hrest Hnear Hpull s'.
  assert (0 < magnitude (vsub (position cue) release)) as Hpos.
  { pose proof (pullPower_le_dist (position cue) release). lra. }
  destruct (shotForce_vector (position cue) release Hpos) as (_ & _ & Hm).
  set (shot := applyForce cue (position cue) (shotForce (position cue) release)).
  assert (cueBallRef (onMouseUp release (onMouseDown press s)) = Some c /\
          world (onMouseUp release (onMouseDown press s)) = world s /\
          bodies (onMouseUp release (onMouseDown press s)) !! c = Some shot)
    as (Hc' & Hw' & Hb').
  { rewrite (onMouseDown_starts s press c cue Hc Hcue Hrest Hnear).
    unfold onMouseUp. cbn [isDraggingRef dragStartRef cueBallRef bodies
      withGesture negb].
    rewrite Hc, Hcue, (proj2 (Rgtb_true _ _) Hpull).
    repeat split; try done.
    cbn [bodies withShotPower withCueLine withGesture withLastForce withBodies].
    apply lookup_insert_eq. }
  destruct (resetCueBall_absent (onMouseUp release (onMouseDown press s))
              c shot Hc' Hb') as (Hw & Hb & _).
  { by rewrite Hw'. }
  split.
  - unfold s'. rewrite Hw. apply elem_of_app. right.
    by apply list_elem_of_singleton.
  - eexists. split; [exact Hb |]. repeat split; try done.
Qed.

Lemma example_potted_at_rest :
  allAtRest (pocketPair (exampleSession (mkVec 1 0) (mkVec 0 0))
               (0%nat, 1%nat)).
Proof.
  intros i b Hi Hb Hd.
  assert (i ∈ [0%nat; 2%nat]) as Hi' by exact Hi.
  repeat (apply elem_of_cons in Hi' as [-> | Hi']);
    [| | by apply elem_of_nil in Hi']; injection Hb as <-.
  - discriminate Hd.
  - change (magnitude (mkVec 0 0) < 0.1).
    rewrite (proj2 (magnitude_zero_iff _) eq_refl). lra.
Qed.

Lemma shot_on_potted_cue_ball_survives_reset_witness :
  exists cue',
    bodies (resetCueBall
              (onMouseUp (mkVec 200 300)
                 (onMouseDown (mkVec 305 300)
                    (pocketPair (exampleSession (mkVec 1 0) (mkVec 0 0))
                       (0%nat, 1%nat))))) !! 1%nat = Some cue' /\
    velocity cue' = mkVec 0 0 /\
    magnitude (shotForce (mkVec 300 300) (mkVec 200 300)) = 100 / 300 * 0.08.
Proof.
  assert (pullPower (mkVec 300 300) (mkVec 200 300) = 100) as Hp.
  { change (Rmin (magnitude (vsub (mkVec 300 300) (mkVec 200 300))) 300 = 100).
    rewrite example_pull_distance. apply Rmin_left. lra. }
  destruct (shot_on_potted_cue_ball_survives_reset
              (pocketPair (exampleSession (mkVec 1 0) (mkVec 0 0))
                 (0%nat, 1%nat))
              (mkVec 305 300) (mkVec 200 300) 1%nat
              (exampleBall "cue" (mkVec 300 300) (mkVec 1 0))
              eq_refl eq_refl example_potted_cue example_potted_at_rest)
    as (_ & cue' & Hb & _ & Hv & _ & Hm).
  - simpl position. rewrite example_press_distance. lra.
  - simpl position. rewrite Hp. lra.
  - exists cue'. split; [exact Hb |]. split; [exact Hv |].
    simpl position in Hm. by rewrite Hp in Hm.
Defined.

(** ** The force of a release is bounded *)

(** X15: a pointer release never puts more than the maximum force 0.08 on the
    cue ball: in every state and for every pointer position, the force pending
    on the cue ball after [onMouseUp] differs from the one before by a vector
    of magnitude at most 0.08. *)
Theorem onMouseUp_force_bounded (s : Session) (pos : Vec) (c : nat)
    (cue cue' : Body) :
  cueBallRef s = Some c -> bodies s !! c = Some cue ->
  bodies (onMouseUp pos s) !! c = Some cue' ->
  magnitude (vsub (force cue') (force cue)) <= 0.08.
Proof.
  intros Hc Hcue Hcue'.
  assert (cue' = cue -> magnitude (vsub (force cue') (force cue)) <= 0.08)
    as Hsame.
  { intros ->. rewrite (proj2 (magnitude_zero_iff _)); [lra |].
    unfold vsub. f_equal; lra. }
  unfold onMouseUp in Hcue'.
  destruct (negb (isDraggingRef s)); [apply Hsame; congruence |].
  destruct (dragStartRef s); [| apply Hsame; congruence].
  rewrite Hc, Hcue in Hcue'.
  destruct (Rgtb (pullPower (position cue) pos) 5) eqn:Hgt.
  2: { apply Hsame. cbn [bodies withShotPower withCueLine withGesture] in Hcue'.
       congruence. }
  cbn [bodies withShotPower withCueLine withGesture withLastForce withBodies]
    in Hcue'.
  rewrite lookup_insert_eq in Hcue'. injection Hcue' as <-.
  apply Rgtb_true in Hgt.
  assert (0 < magnitude (vsub (position cue) pos)) as Hpos.
  { pose proof (pullPower_le_dist (position cue) pos). lra. }
  destruct (shotForce_vector (position cue) pos Hpos) as (_ & _ & Hm).
  replace (vsub (force (applyForce cue (position cue)
                          (shotForce (position cue) pos))) (force cue))
    with (shotForce (position cue) pos).
  - rewrite Hm. pose proof (pullPower_range (position cue) pos). lra.
  - destruct (shotForce (position cue) pos) as [fx fy].
    unfold vsub. simpl. f_equal; lra.
Qed.

Lemma onMouseUp_shoots (s : Session) (pos start : Vec) (c : nat) (cue : Body) :
  isDraggingRef s = true -> dragStartRef s = Some start ->
  cueBallRef s = Some c -> bodies s !! c = Some cue ->
  pullPower (position cue) pos > 5 ->
  bodies (onMouseUp pos s) !! c
  = Some (applyForce cue (position cue) (shotForce (position cue) pos)).
Proof.
  intros Hd Hs Hc Hcue Hgt. unfold onMouseUp.
  rewrite Hd, Hs, Hc, Hcue, (proj2 (Rgtb_true _ _) Hgt).
  cbn [negb bodies withShotPower withCueLine withGesture withLastForce
       withBodies].
  apply lookup_insert_eq.
Qed.

Lemma example_full_shot :
  bodies (onMouseUp (mkVec (-100) 300) exampleAiming) !! 1%nat
  = Some (applyForce (exampleBall "cue" (mkVec 300 300) (mkVec 0 0))
            (mkVec 300 300) (shotForce (mkVec 300 300) (mkVec (-100) 300))).
Proof.
  apply (onMouseUp_shoots exampleAiming (mkVec (-100) 300) (mkVec 300 300)
           1%nat (exampleBall "cue" (mkVec 300 300) (mkVec 0 0))
           eq_refl eq_refl eq_refl eq_refl).
  change (Rmin (magnitude (vsub (mkVec 300 300) (mkVec (-100) 300))) 300 > 5).
  rewrite example_full_pull, Rmin_right; lra.
Qed.

(** The strongest pull, 400 units, stays within the bound. *)
Lemma onMouseUp_force_bounded_witness :
  magnitude
    (vsub (force (applyForce (exampleBall "cue" (mkVec 300 300) (mkVec 0 0))
                    (mkVec 300 300)
                    (shotForce (mkVec 300 300) (mkVec (-100) 300))))
          (mkVec 0 0)) <= 0.08.
Proof.
  apply (onMouseUp_force_bounded exampleAiming (mkVec (-100) 300) 1%nat
           (exampleBall "cue" (mkVec 300 300) (mkVec 0 0)) _
           eq_refl eq_refl example_full_shot).
Defined.

(** ** Settings compose by overwriting *)

Lemma forEachBody_dynamic (f : Body -> Body) (ids : list nat)
    (m : gmap nat Body) (i : nat) :
  (forall b, isDynamic (f b) = isDynamic b) ->
  match forEachBody f ids m !! i with Some b => isDynamic b | None => false end
  = match m !! i with Some b => isDynamic b | None => false end.
Proof.
  intros Hf. unfold forEachBody. revert m.
  induction ids as [| x ids IH]; intros m; simpl; [done |].
  rewrite IH. destruct (decide (x = i)) as [-> | Hne].
  - rewrite lookup_alter_eq. destruct (m !! i); simpl; [apply Hf | done].
  - by rewrite lookup_alter_ne.
Qed.

Lemma dynamicBodies_forEach (f : Body -> Body) (ids : list nat)
    (m : gmap nat Body) (w : list nat) :
  (forall b, isDynamic (f b) = isDynamic b) ->
  dynamicBodies (forEachBody f ids m) w = dynamicBodies m w.
Proof.
  intros Hf. unfold dynamicBodies. apply List.filter_ext.
  intros i. by apply forEachBody_dynamic.
Qed.

(** X16: physics settings compose by overwriting: applying one triple of
    settings and then another leaves exactly the state that applying the
    second alone would; in particular applying the same settings twice is
    applying them once. *)
Theorem applyPhysicsSettings_overwrites (fAir1 rf1 dn1 fAir2 rf2 dn2 : R)
    (s : Session) :
  applyPhysicsSettings fAir2 rf2 dn2 (applyPhysicsSettings fAir1 rf1 dn1 s)
  = applyPhysicsSettings fAir2 rf2 dn2 s.
Proof.
  unfold applyPhysicsSettings.
  cbn [bodies world withBodies withRollingFriction nextId cueBallRef
       allBallsRef isDraggingRef dragStartRef cueLineRef lastForceRef
       rollingFrictionRef pottedBalls shotPower isAiming isCueBallPotted].
  f_equal. rewrite dynamicBodies_forEach by done.
  apply map_eq. intros i.
  destruct (decide (i ∈ dynamicBodies (bodies s) (world s))) as [Hin | Hout].
  - rewrite !forEachBody_lookup_idem by done.
    by destruct (bodies s !! i).
  - by rewrite !forEachBody_lookup_notin.
Qed.

(** ** The reds of the triangle do not overlap *)

Lemma triangle_form_Z (a b : Z) :
  (a <> 0 \/ b <> 0)%Z -> (1 <= a * a - a * b + b * b)%Z.
Proof. intros H. nia. Qed.

Lemma triangle_form (r r' c c' : nat) :
  (r, c) <> (r', c') ->
  1 <= (INR r - INR r') * (INR r - INR r')
       - (INR r - INR r') * (INR c - INR c')
       + (INR c - INR c') * (INR c - INR c').
Proof.
  intros Hne. rewrite !INR_IZR_INZ, <- !minus_IZR, <- !mult_IZR, <- minus_IZR,
    <- plus_IZR.
  apply IZR_le, triangle_form_Z.
  destruct (decide (r = r')) as [-> | Hr]; [| left; lia].
  right. intros Hc. apply Hne. f_equal. lia.
Qed.

Lemma cos_PI6_sqr : cos (PI / 6) * cos (PI / 6) = 3 / 4.
Proof.
  rewrite cos_PI6.
  replace (sqrt 3 / 2 * (sqrt 3 / 2)) with (sqrt 3 * sqrt 3 / 4) by field.
  rewrite sqrt_sqrt by lra. done.
Qed.

(** X17: [createBalls] never puts two reds on top of each other: the centres
    of the reds of any two different loop positions (row, column) are at least
    the spacing 21.5 apart, which is more than a ball's diameter 20; this
    holds for every row and column, not only for the five rows of the
    rack. *)
Theorem reds_do_not_overlap (ballArea : R) (i j : nat) (cell cell' : nat * nat) :
  cell <> cell' ->
  2 * BALL_R < 21.5 /\
  21.5 <= magnitude (vsub (position (redBall ballArea i cell))
                          (position (redBall ballArea j cell'))).
Proof.
  intros Hne. split; [unfold BALL_R; lra |].
  destruct cell as [r c], cell' as [r' c'].
  pose proof (triangle_form r r' c c' Hne) as Hq.
  unfold magnitude, vsub, redBall, createBall, rackStartX, rackCy, rackSpacing,
    CUSHION, TABLE_WIDTH, TABLE_HEIGHT, BALL_R.
  cbn [position vx vy fst snd].
  set (a := INR r - INR r') in *. set (b := INR c - INR c') in *.
  replace ((40 + 1200 * 0.68 + INR r * (10 * 2.15) * cos (PI / 6)
            - (40 + 1200 * 0.68 + INR r' * (10 * 2.15) * cos (PI / 6)))
           * (40 + 1200 * 0.68 + INR r * (10 * 2.15) * cos (PI / 6)
              - (40 + 1200 * 0.68 + INR r' * (10 * 2.15) * cos (PI / 6)))
           + (40 + 600 / 2 + (INR c - INR r / 2) * (10 * 2.15)
              - (40 + 600 / 2 + (INR c' - INR r' / 2) * (10 * 2.15)))
             * (40 + 600 / 2 + (INR c - INR r / 2) * (10 * 2.15)
                - (40 + 600 / 2 + (INR c' - INR r' / 2) * (10 * 2.15))))
    with (21.5 * 21.5 * (a * a - a * b + b * b)).
  - rewrite <- (sqrt_square 21.5) at 1 by lra.
    apply sqrt_le_1_alt. nra.
  - unfold a, b.
    replace (21.5 * 21.5 *
             ((INR r - INR r') * (INR r - INR r')
              - (INR r - INR r') * (INR c - INR c')
              + (INR c - INR c') * (INR c - INR c')))
      with (21.5 * 21.5 *
            ((INR r - INR r') * (INR r - INR r') * (3 / 4)
             + ((INR c - INR c') - (INR r - INR r') / 2)
               * ((INR c - INR c') - (INR r - INR r') / 2))) by field.
    rewrite <- cos_PI6_sqr.
    generalize (cos (PI / 6)) (INR r) (INR r') (INR c) (INR c').
    intros k x x' y y'. lra.
Qed.

(** Two neighbours of the bottom row. *)
Lemma reds_do_not_overlap_witness :
  21.5 <= magnitude (vsub (position (redBall exampleArea 10 (4%nat, 0%nat)))
                          (position (redBall exampleArea 11 (4%nat, 1%nat)))).
Proof.
  apply (reds_do_not_overlap exampleArea 10 11 (4%nat, 0%nat) (4%nat, 1%nat)).
  discriminate.
Defined.

(** ** Pointer coordinates *)

(** X18: [getCanvasPos] undoes the CSS scaling of the canvas: for a canvas
    rectangle of positive width and height, the client point that lies the
    fractions [t] and [u] across the rectangle is reported at
    [(t * 1280, u * 680)]; so the corners of the rectangle are (0, 0) and
    (1280, 680) whatever the size of the canvas on screen. *)
Theorem getCanvasPos_scales (rect : Rect) (t u : R) :
  rectWidth rect > 0 -> rectHeight rect > 0 ->
  getCanvasPos rect (rectLeft rect + t * rectWidth rect)
                    (rectTop rect + u * rectHeight rect)
    = mkVec (t * 1280) (u * 680) /\
  getCanvasPos rect (rectLeft rect) (rectTop rect) = mkVec 0 0 /\
  getCanvasPos rect (rectLeft rect + rectWidth rect)
                    (rectTop rect + rectHeight rect) = mkVec 1280 680.
Proof.
  intros Hw Hh.
  unfold getCanvasPos, CANVAS_W, CANVAS_H, TABLE_WIDTH, TABLE_HEIGHT, CUSHION.
  repeat split; f_equal; field; lra.
Qed.

(** A canvas shown at half size: the middle of the rectangle is the middle of
    the table. *)
Lemma getCanvasPos_scales_witness :
  getCanvasPos (mkRect 10 20 640 340) (10 + 0.5 * 640) (20 + 0.5 * 340)
  = mkVec (0.5 * 1280) (0.5 * 680).
Proof.
  apply (getCanvasPos_scales (mkRect 10 20 640 340) 0.5 0.5); simpl; lra.
Defined.

(** ** Arrows *)

Lemma unit_vector_length (h a : R) :
  0 <= h -> sqrt ((h * cos a) * (h * cos a) + (h * sin a) * (h * sin a)) = h.
Proof.
  intros Hh.
  replace ((h * cos a) * (h * cos a) + (h * sin a) * (h * sin a))
    with (h * h * ((sin a)² + (cos a)²)) by (unfold Rsqr; lra).
  rewrite sin2_cos2, Rmult_1_r. by apply sqrt_square.
Qed.

(** X19: [drawArrow] draws nothing at all for an arrow shorter than 2.
    Otherwise it issues exactly one [save], first, and one [restore], last,
    and the two barbs of the head end at a distance [headLen] from the tip,
    where [headLen = min(8, 0.35 * length)] lies between 0.7 and 8. *)
Theorem drawArrow_shape (fromX fromY toX toY : R) (color : string)
    (lineWidth alpha : R) :
  let len := magnitude (vsub (mkVec toX toY) (mkVec fromX fromY)) in
  let headLen := Rmin 8 (len * 0.35) in
  let ops := drawArrow fromX fromY toX toY color lineWidth alpha in
  (len < 2 -> ops = []) /\
  (2 <= len ->
     0.7 <= headLen <= 8 /\
     head ops = Some ctxSave /\ last ops = Some ctxRestore /\
     length (List.filter isSave ops) = 1%nat /\
     length (List.filter isRestore ops) = 1%nat /\
     exists x1 y1 x2 y2,
       ops !! 11%nat = Some (ctxLineTo x1 y1) /\
       ops !! 12%nat = Some (ctxLineTo x2 y2) /\
       magnitude (vsub (mkVec toX toY) (mkVec x1 y1)) = headLen /\
       magnitude (vsub (mkVec toX toY) (mkVec x2 y2)) = headLen).
Proof.
  intros len headLen ops.
  assert (len = sqrt ((toX - fromX) * (toX - fromX)
                      + (toY - fromY) * (toY - fromY))) as Hlen by reflexivity.
  split.
  - intros Hshort. unfold ops, drawArrow. rewrite <- Hlen.
    by rewrite (proj2 (Rltb_true _ _) Hshort).
  - intros Hlong.
    assert (0.7 <= headLen <= 8) as Hh.
    { unfold headLen. split; [apply Rmin_glb; lra | apply Rmin_l]. }
    unfold ops, drawArrow. rewrite <- Hlen.
    rewrite (proj2 (Rltb_false _ _) Hlong). fold headLen.
    split; [exact Hh |]. repeat (split; [reflexivity |]).
    do 4 eexists. split; [reflexivity |]. split; [reflexivity |].
    unfold magnitude, vsub. cbn [vx vy].
    split.
    + match goal with
      | |- sqrt ((toX - (toX - _ * cos ?a)) * _ + _) = _ =>
          replace (toX - (toX - headLen * cos a)) with (headLen * cos a) by lra;
          replace (toY - (toY - headLen * sin a)) with (headLen * sin a) by lra
      end.
      apply unit_vector_length. lra.
    + match goal with
      | |- sqrt ((toX - (toX - _ * cos ?a)) * _ + _) = _ =>
          replace (toX - (toX - headLen * cos a)) with (headLen * cos a) by lra;
          replace (toY - (toY - headLen * sin a)) with (headLen * sin a) by lra
      end.
      apply unit_vector_length. lra.
Qed.

Lemma example_arrow_length :
  magnitude (vsub (mkVec 10 0) (mkVec 0 0)) = 10.
Proof.
  unfold magnitude. simpl.
  replace ((10 - 0) * (10 - 0) + (0 - 0) * (0 - 0)) with (10 * 10) by lra.
  apply sqrt_square. lra.
Qed.

(** An arrow of length 10 has a head of 3.5. *)
Lemma drawArrow_shape_witness :
  head (drawArrow 0 0 10 0 "#00e5ff" 2.5 0.9) = Some ctxSave /\
  last (drawArrow 0 0 10 0 "#00e5ff" 2.5 0.9) = Some ctxRestore.
Proof.
  destruct (drawArrow_shape 0 0 10 0 "#00e5ff" 2.5 0.9) as (_ & Hlong).
  destruct Hlong as (_ & Hhead & Hlast & _).
  - rewrite example_arrow_length. lra.
  - by split.
Defined.

Lemma drawArrow_head (fromX fromY toX toY : R) (color : string)
    (lineWidth alpha : R) :
  2 <= magnitude (vsub (mkVec toX toY) (mkVec fromX fromY)) ->
  exists tl, drawArrow fromX fromY toX toY color lineWidth alpha = ctxSave :: tl.
Proof.
  intros Hlong. unfold drawArrow.
  change (sqrt ((toX - fromX) * (toX - fromX) + (toY - fromY) * (toY - fromY)))
    with (magnitude (vsub (mkVec toX toY) (mkVec fromX fromY))).
  rewrite (proj2 (Rltb_false _ _) Hlong). by eexists.
Qed.

(** X20: in the vector overlay a ball slower than 0.2 gets no arrows and no
    labels; for any other ball the velocity arrow is always drawn: its shaft
    is 18 times the velocity, so at least 3.6 long, and is never suppressed by
    the shortness rule of [drawArrow]. *)
Theorem vectorOverlay_velocity_arrow (b : Body) :
  let speed := magnitude (velocity b) in
  let px := vx (position b) in
  let py := vy (position b) in
  let arrow := drawArrow px py (px + vx (velocity b) * 18)
                 (py + vy (velocity b) * 18) "#00e5ff" 2.5 0.9 in
  (speed < 0.2 -> vectorOverlay b = []) /\
  (0.2 <= speed ->
     magnitude (vsub (mkVec (px + vx (velocity b) * 18)
                            (py + vy (velocity b) * 18)) (mkVec px py))
       = 18 * speed /\
     head arrow = Some ctxSave /\
     exists rest, vectorOverlay b = arrow ++ rest /\
                  head (vectorOverlay b) = Some ctxSave).
Proof.
  intros speed px py arrow. split.
  - intros Hslow. unfold vectorOverlay, MIN_SPEED_FOR_VECTORS.
    unfold speed in Hslow. by rewrite (proj2 (Rltb_true _ _) Hslow).
  - intros Hfast.
    assert (magnitude (vsub (mkVec (px + vx (velocity b) * 18)
                                   (py + vy (velocity b) * 18)) (mkVec px py))
            = 18 * speed) as Hlen.
    { unfold vsub. cbn [vx vy].
      replace (px + vx (velocity b) * 18 - px) with (vx (velocity b) * 18)
        by lra.
      replace (py + vy (velocity b) * 18 - py) with (vy (velocity b) * 18)
        by lra.
      rewrite magnitude_scaled by lra. unfold speed. lra. }
    destruct (drawArrow_head px py (px + vx (velocity b) * 18)
                (py + vy (velocity b) * 18) "#00e5ff" 2.5 0.9) as [tl Htl].
    { rewrite Hlen. lra. }
    split; [exact Hlen |]. split; [unfold arrow; by rewrite Htl |].
    unfold vectorOverlay, MIN_SPEED_FOR_VECTORS, VEC_SCALE_VELOCITY,
      VECTOR_COLORS_velocity.
    unfold speed in Hfast.
    rewrite (proj2 (Rltb_false _ _) Hfast). fold px py arrow.
    eexists. split; [reflexivity |]. unfold arrow. by rewrite Htl.
Qed.

Lemma vectorOverlay_velocity_arrow_witness :
  vectorOverlay (exampleBall "cue" (mkVec 300 300) (mkVec 0.1 0)) = [].
Proof.
  destruct (vectorOverlay_velocity_arrow
              (exampleBall "cue" (mkVec 300 300) (mkVec 0.1 0))) as (Hslow & _).
  apply Hslow. simpl velocity. rewrite example_cue_speed. lra.
Defined.

(** ** Contacts without a pocket *)

(** X21: a [collisionStart] event in which no body of any pair carries a
    "pocket-" label (balls hitting balls, cushions or rails) leaves the whole
    state exactly as it was. *)
Theorem onCollisionStart_without_pocket (pairs : list (nat * nat))
    (s : Session) :
  (forall pair b, pair ∈ pairs ->
     bodies s !! pair.1 = Some b \/ bodies s !! pair.2 = Some b ->
     isPocketLabel (label b) = false) ->
  onCollisionStart pairs s = s.
Proof.
  unfold onCollisionStart.
  induction pairs as [| pair pairs IH]; intros Hno; simpl; [done |].
  assert (pocketPair s pair = s) as ->.
  { unfold pocketPair.
    destruct (bodies s !! pair.1) as [bodyA |] eqn:HA; [| done].
    destruct (bodies s !! pair.2) as [bodyB |] eqn:HB; [| done].
    rewrite (Hno pair bodyA), (Hno pair bodyB);
      [done | | | |]; try (apply elem_of_cons; by left); auto. }
  apply IH. intros pr b Hpr. apply Hno. apply elem_of_cons. by right.
Qed.

(** The cue ball hits the red: nothing is potted. *)
Lemma onCollisionStart_without_pocket_witness :
  onCollisionStart [(1%nat, 2%nat); (2%nat, 1%nat)]
    (exampleSession (mkVec 1 0) (mkVec 0 0))
  = exampleSession (mkVec 1 0) (mkVec 0 0).
Proof.
  apply (onCollisionStart_without_pocket [(1%nat, 2%nat); (2%nat, 1%nat)]
           (exampleSession (mkVec 1 0) (mkVec 0 0))).
  intros pair b Hp Hb.
  repeat (apply elem_of_cons in Hp as [-> | Hp]);
    [| | by apply elem_of_nil in Hp];
    destruct Hb as [Hb | Hb]; injection Hb as <-; reflexivity.
Defined.

(** * Pocket contacts as events *)

Lemma onCollisionStart_app (before after : list (nat * nat)) (s : Session) :
  onCollisionStart (before ++ after) s
  = onCollisionStart after (onCollisionStart before s).
Proof. unfold onCollisionStart. apply fold_left_app. Qed.

Lemma onCollisionStart_bodies (pairs : list (nat * nat)) (s : Session) :
  bodies (onCollisionStart pairs s) = bodies s.
Proof.
  unfold onCollisionStart. revert s.
  induction pairs as [| pair pairs IH]; intros s; simpl; [done |].
  rewrite IH. apply pocketPair_keeps.
Qed.

(** A contact reported among others: the ball is out of the world once the
    event is handled, and it is recorded. *)
Lemma onCollisionStart_pots (s : Session) (before after : list (nat * nat))
    (pair : nat * nat) (p b : nat) (pocket ball : Body) :
  NoDup (world s) ->
  pair = (p, b) \/ pair = (b, p) ->
  bodies s !! p = Some pocket -> bodies s !! b = Some ball ->
  isPocketLabel (label pocket) = true ->
  isPocketLabel (label ball) = false -> isStatic ball = false ->
  let s' := onCollisionStart (before ++ pair :: after) s in
  (b ∉ world s') /\
  world s' `sublist_of` removeBody b (world s) /\
  (label ball = "cue"%string -> isCueBallPotted s' = true) /\
  (label ball <> "cue"%string -> label ball ∈ pottedBalls s').
Proof.
  intros Hnd Hpair Hp Hb Hpl Hbl Hns s'.
  set (s1 := onCollisionStart before s).
  assert (s' = onCollisionStart after (pocketPair s1 pair)) as Hs'.
  { unfold s'. by rewrite onCollisionStart_app. }
  assert (bodies s1 = bodies s) as Hb1 by apply onCollisionStart_bodies.
  assert (world s1 `sublist_of` world s) as Hsub1
    by apply onCollisionStart_world_sublist.
  pose proof (pocketPair_ball s1 pair p b pocket ball Hpair) as Hpp.
  rewrite Hb1 in Hpp. specialize (Hpp Hp Hb Hpl Hbl Hns).
  assert (world (pocketPair s1 pair) = removeBody b (world s1)) as Hw2.
  { rewrite Hpp. by destruct (String.eqb _ _). }
  assert (removeBody b (world s1) `sublist_of` removeBody b (world s)) as Hrm.
  { clear -Hsub1. induction Hsub1 as [| x l1 l2 Hs IH | x l1 l2 Hs IH]; simpl.
    - done.
    - destruct (Nat.eqb x b); [done | by apply sublist_skip].
    - destruct (Nat.eqb x b).
      + etrans; [apply removeBody_sublist | done].
      + by apply sublist_cons. }
  assert (world s' `sublist_of` removeBody b (world s)) as Hsub.
  { rewrite Hs'. etrans; [apply onCollisionStart_world_sublist |].
    by rewrite Hw2. }
  destruct (onCollisionStart_history after (pocketPair s1 pair))
    as (added & Hadd & _ & Hflag).
  split; [| split; [exact Hsub | split]].
  - intros Hin. eapply removeBody_notin; [exact Hnd |].
    eapply elem_of_sublist; [exact Hin | exact Hsub].
  - intros Hcue. rewrite Hs'. apply Hflag. rewrite Hpp.
    by rewrite (proj2 (String.eqb_eq _ _) Hcue).
  - intros Hobj. rewrite Hs', Hadd, Hpp.
    rewrite (proj2 (String.eqb_neq _ _) Hobj).
    cbn [pottedBalls withPottedBalls withWorld].
    apply elem_of_app. left. apply elem_of_app. right.
    by apply list_elem_of_singleton.
Qed.

(** C6: when a [collisionStart] event reports that a pocket sensor (label
    "pocket-...") and a non-static body have started to touch, the handler
    removes the body from the world; if the body's label is "cue" the
    cue-ball-in-hand flag becomes true and the potted sequence is unchanged;
    otherwise the label is appended at the end of the potted sequence and the
    flag is unchanged.  No body object is modified and the other bodies stay
    in the world.  When the event reports other pairs as well, before or
    after this one, the body is still out of the world at the end, and the
    flag is set or the label is in the potted sequence. *)
Theorem pocket_contact (s : Session) (before after : list (nat * nat))
    (pair : nat * nat) (p b : nat) (pocket ball : Body) :
  NoDup (world s) ->
  pair = (p, b) \/ pair = (b, p) ->
  bodies s !! p = Some pocket -> bodies s !! b = Some ball ->
  isPocketLabel (label pocket) = true ->
  isPocketLabel (label ball) = false -> isStatic ball = false ->
  let s1 := onCollisionStart [pair] s in
  let s' := onCollisionStart (before ++ pair :: after) s in
  world s1 = removeBody b (world s) /\
  (b ∉ world s1) /\
  (forall i, i <> b -> i ∈ world s -> i ∈ world s1) /\
  bodies s1 = bodies s /\
  (label ball = "cue"%string ->
     isCueBallPotted s1 = true /\ pottedBalls s1 = pottedBalls s) /\
  (label ball <> "cue"%string ->
     pottedBalls s1 = pottedBalls s ++ [label ball] /\
     isCueBallPotted s1 = isCueBallPotted s) /\
  (b ∉ world s') /\
  bodies s' = bodies s /\
  (label ball = "cue"%string -> isCueBallPotted s' = true) /\
  (label ball <> "cue"%string -> label ball ∈ pottedBalls s').
Proof.
  intros Hnd Hpair Hp Hb Hpl Hbl Hns s1 s'.
  assert (s1 = pocketPair s pair) as Hs1 by reflexivity.
  pose proof (pocketPair_ball s pair p b pocket ball Hpair Hp Hb Hpl Hbl Hns)
    as Hpp.
  assert (world s1 = removeBody b (world s)) as Hw.
  { rewrite Hs1, Hpp. by destruct (String.eqb _ _). }
  destruct (onCollisionStart_pots s before after pair p b pocket ball
              Hnd Hpair Hp Hb Hpl Hbl Hns) as (Hout & _ & Hcue & Hobj).
  split; [exact Hw |]. rewrite Hw.
  split; [by apply removeBody_notin |].
  split; [intros i Hne Hi; by apply removeBody_other |].
  split; [apply onCollisionStart_bodies |].
  split; [| split].
  - intros Hl. rewrite Hs1, Hpp, (proj2 (String.eqb_eq _ _) Hl). done.
  - intros Hl. rewrite Hs1, Hpp, (proj2 (String.eqb_neq _ _) Hl). done.
  - split; [exact Hout |]. split; [apply onCollisionStart_bodies |].
    split; [exact Hcue | exact Hobj].
Qed.

(** The scenario of the specification: the event reports that "red-7" touches
    a pocket. *)
Lemma pocket_contact_witness :
  world (onCollisionStart [(0%nat, 2%nat)]
           (exampleSession (mkVec 0 0) (mkVec 2 0))) = [0%nat; 1%nat] /\
  pottedBalls (onCollisionStart [(0%nat, 2%nat)]
                 (exampleSession (mkVec 0 0) (mkVec 2 0)))
    = ["red-7"%string] /\
  isCueBallPotted (onCollisionStart [(0%nat, 2%nat)]
                     (exampleSession (mkVec 0 0) (mkVec 2 0))) = false /\
  2%nat ∉ world (onCollisionStart [(1%nat, 2%nat); (0%nat, 2%nat); (2%nat, 0%nat)]
                   (exampleSession (mkVec 0 0) (mkVec 2 0))).
Proof.
  destruct (pocket_contact (exampleSession (mkVec 0 0) (mkVec 2 0))
              [(1%nat, 2%nat)] [(2%nat, 0%nat)]
              (0%nat, 2%nat) 0%nat 2%nat examplePocket
              (exampleBall "red-7" (mkVec 600 300) (mkVec 2 0))
              (example_world_NoDup _ _) (or_introl eq_refl)
              eq_refl eq_refl eq_refl eq_refl eq_refl)
    as (Hw & _ & _ & _ & _ & Hobj & Hout & _).
  destruct Hobj as [Hp Hf]; [done |].
  rewrite Hw, Hp, Hf. repeat split; try done.
Defined.

(** * A potted body stays out *)

Lemma resetCueBall_keeps_out (s : Session) (b : nat) :
  cueBallRef s <> Some b -> b ∉ world s ->
  (b ∉ world (resetCueBall s)) /\ cueBallRef (resetCueBall s) <> Some b.
Proof.
  intros Hc Hout. unfold resetCueBall.
  destruct (cueBallRef s) as [c |] eqn:Hcs; [| by rewrite Hcs].
  cbn zeta. cbn [world withBodies].
  destruct (inWorld c (world s)); cbn [world cueBallRef withCueBallPotted
    withWorld withBodies]; rewrite ?Hcs; split; try done.
  unfold addBodies. intros Hin. apply elem_of_app in Hin as [Hin | Hin];
    [done |]. apply list_elem_of_singleton in Hin. congruence.
Qed.

Section StaysOut.

Variable ballArea : R.
Variable integrate : gmap nat Body -> list nat -> gmap nat Body.
Variable detect : gmap nat Body -> list nat -> list (nat * nat).
Variable resolve : gmap nat Body -> list nat -> list (nat * nat) -> gmap nat Body.

Lemma step_cueBallRef (s : Session) (e : Event) :
  isResetGame e = false ->
  cueBallRef (step ballArea integrate detect resolve s e) = cueBallRef s.
Proof.
  destruct e; intros He; try discriminate; cbn [step].
  - apply (tick_refs integrate detect resolve s).
  - apply (onCollisionStart_refs _ s).
  - apply (onMouseDown_refs _ s).
  - apply (onMouseMove_refs _ s).
  - apply (onMouseUp_refs _ s).
  - done.
  - unfold resetCueBall. destruct (cueBallRef s) as [c |] eqn:Hc; [| done].
    cbn zeta. by destruct (inWorld _ _).
Qed.

Lemma step_keeps_out (s : Session) (e : Event) (b : nat) :
  isResetGame e = false -> cueBallRef s <> Some b -> b ∉ world s ->
  b ∉ world (step ballArea integrate detect resolve s e).
Proof.
  intros He Hc Hout.
  destruct (isReset e) eqn:Hr.
  - destruct e; try discriminate. simpl. by apply resetCueBall_keeps_out.
  - intros Hin. apply Hout. eapply elem_of_sublist; [exact Hin |].
    by apply step_world_sublist.
Qed.

Lemma run_keeps_out (es : list Event) (s : Session) (b : nat) :
  Forall (fun e => isResetGame e = false) es ->
  cueBallRef s <> Some b -> b ∉ world s ->
  b ∉ world (run ballArea integrate detect resolve s es).
Proof.
  unfold run. revert s.
  induction es as [| e es IH]; intros s Hes Hc Hout; simpl; [done |].
  apply Forall_cons in Hes as [He Hes].
  apply IH; [done | | by apply step_keeps_out].
  by rewrite step_cueBallRef.
Qed.

(** C7: a body that a pocket contact has removed from the world does not
    come back by itself.  After no sequence of ticks (with any engine
    phases), further pocket events, pointer events and physics settings is it
    in the world; for a body that is not the cue ball this stays true when
    [resetCueBall] calls are mixed in, so that only [resetGame] is left to
    bring such a ball back; and a potted cue ball is brought back by
    [resetCueBall]. *)
Theorem potted_body_stays_out (s : Session) (before after : list (nat * nat))
    (pair : nat * nat) (p b : nat) (pocket ball : Body) (es : list Event) :
  NoDup (world s) ->
  pair = (p, b) \/ pair = (b, p) ->
  bodies s !! p = Some pocket -> bodies s !! b = Some ball ->
  isPocketLabel (label pocket) = true ->
  isPocketLabel (label ball) = false -> isStatic ball = false ->
  let s' := onCollisionStart (before ++ pair :: after) s in
  (Forall (fun e => isReset e = false) es ->
     b ∉ world (run ballArea integrate detect resolve s' es)) /\
  (cueBallRef s <> Some b ->
   Forall (fun e => isResetGame e = false) es ->
     b ∉ world (run ballArea integrate detect resolve s' es)) /\
  (cueBallRef s = Some b -> b ∈ world (resetCueBall s')).
Proof.
  intros Hnd Hpair Hp Hb Hpl Hbl Hns s'.
  destruct (onCollisionStart_pots s before after pair p b pocket ball
              Hnd Hpair Hp Hb Hpl Hbl Hns) as (Hout & _).
  fold s' in Hout.
  assert (cueBallRef s' = cueBallRef s) as Hc' by apply onCollisionStart_refs.
  split; [| split].
  - intros Hes Hin. apply Hout. eapply elem_of_sublist; [exact Hin |].
    by apply run_world_sublist.
  - intros Hc Hes. apply run_keeps_out; [done | by rewrite Hc' | done].
  - intros Hc.
    destruct (resetCueBall_absent s' b ball) as (Hw & _);
      [by rewrite Hc' | | done |].
    + unfold s'. by rewrite onCollisionStart_bodies.
    + rewrite Hw. apply elem_of_app. right. by apply list_elem_of_singleton.
Qed.

End StaysOut.

(** "red-7" is potted; ticks, pocket events, a whole gesture, new settings
    and two [resetCueBall] calls later it is still out of the world. *)
Lemma potted_body_stays_out_witness :
  2%nat ∉
    world (run exampleArea eulerIntegrate noPairs noResolve
             (onCollisionStart [(1%nat, 2%nat); (0%nat, 2%nat)]
                (exampleSession (mkVec 0 0) (mkVec 2 0)))
             [Tick; ResetCueBall; CollisionStart [(0%nat, 2%nat); (2%nat, 0%nat)];
              MouseDown (mkVec 305 300); MouseMove (mkVec 250 300);
              SetPhysics 0 0.001 0.01; MouseUp (mkVec 200 300);
              CollisionStart [(0%nat, 1%nat)]; ResetCueBall; Tick]).
Proof.
  destruct (potted_body_stays_out exampleArea eulerIntegrate noPairs noResolve
              (exampleSession (mkVec 0 0) (mkVec 2 0))
              [(1%nat, 2%nat)] [] (0%nat, 2%nat)
              0%nat 2%nat examplePocket
              (exampleBall "red-7" (mkVec 600 300) (mkVec 2 0))
              [Tick; ResetCueBall;
               CollisionStart [(0%nat, 2%nat); (2%nat, 0%nat)];
               MouseDown (mkVec 305 300); MouseMove (mkVec 250 300);
               SetPhysics 0 0.001 0.01; MouseUp (mkVec 200 300);
               CollisionStart [(0%nat, 1%nat)]; ResetCueBall; Tick]
              (example_world_NoDup _ _) (or_introl eq_refl)
              eq_refl eq_refl eq_refl eq_refl eq_refl)
    as (_ & Hobject & _).
  apply Hobject; [discriminate | repeat constructor].
Defined.
